(** * WooferRobot: the onboard control loop of the Woofer quadruped

    A shallow embedding of [WooferRobot.py]: the constructor, the tick
    function [step], the recorder [log_data], the report [print_data],
    [save_logs] and the factory [MakeWoofer], together with the parts of
    numpy they rely on, followed by the properties of the control loop.

    Conventions of the embedding.
    - numpy float64 values are exact rationals ([Q]); rounding, infinities
      and NaN are outside the model.  Where a statement needs arithmetic
      it is stated up to [Qeq]; where a value is merely moved around it is
      stated with Leibniz equality.
    - A one-dimensional array is a [list Q].  A two-dimensional array is
      kept column by column ([ndarray2]), since the program only ever
      reads the column count, appends columns and assigns whole columns.
    - A Python exception is a value of [exn]; a method of the robot is a
      computation in the monad [M], which threads the robot object and the
      world of the collaborator objects and keeps both when an exception
      is raised (as Python keeps the mutated objects). *)

From Stdlib Require Import QArith Qminmax Qabs.
From stdpp Require Import gmap strings list fin_maps.

Local Open Scope Q_scope.
Local Open Scope nat_scope.

(** ** Exceptions *)

Inductive exn : Type :=
  | EstimationError
  | PlannerError
  | InfeasibleSolveError
  | KeyError
  | IndexError
  | ValueError
  | TypeError
  | AttributeError.

(** ** The part of numpy the program uses *)

Module np.

(** [np.zeros(n)] *)
Definition zeros (n : nat) : list Q := replicate n 0%Q.

(** Broadcasting of an element-wise binary operation over two
    one-dimensional arrays: equal lengths go pointwise, a length-one
    array is stretched, anything else is a [ValueError]. *)
Definition broadcast2 (f : Q → Q → Q) (xs ys : list Q) : exn + list Q :=
  if decide (length xs = length ys) then inr (zip_with f xs ys)
  else match xs, ys with
       | [x], _ => inr (map (f x) ys)
       | _, [y] => inr (map (λ x, f x y) xs)
       | _, _ => inl ValueError
       end.

Definition multiply := broadcast2 Qmult.
Definition add := broadcast2 Qplus.

(** [c - a] for a Python scalar [c] *)
Definition rsub (c : Q) (a : list Q) : list Q := map (Qminus c) a.

(** [a[idx]] for a list of indices [idx] (integer array indexing) *)
Fixpoint take (a : list Q) (idx : list nat) : exn + list Q :=
  match idx with
  | [] => inr []
  | k :: idx' =>
      match a !! k with
      | None => inl IndexError
      | Some x =>
          match take a idx' with
          | inl e => inl e
          | inr xs => inr (x :: xs)
          end
      end
  end.

(** A two-dimensional array of shape [(nrows, length columns)]. *)
Record ndarray2 : Type := mk2 { nrows : nat; columns : list (list Q) }.

(** [np.zeros((r, c))] *)
Definition zeros2 (r c : nat) : ndarray2 :=
  {| nrows := r; columns := replicate c (zeros r) |}.

Definition shape0 (a : ndarray2) : nat := nrows a.
Definition shape1 (a : ndarray2) : nat := length (columns a).

(** [np.append(a, b, axis=1)] *)
Definition append_axis1 (a b : ndarray2) : exn + ndarray2 :=
  if decide (nrows a = nrows b)
  then inr {| nrows := nrows a; columns := columns a ++ columns b |}
  else inl ValueError.

(** The value a one-dimensional right-hand side takes when assigned to
    a slot of shape [(n,)]. *)
Definition broadcast_to (n : nat) (v : list Q) : exn + list Q :=
  if decide (length v = n) then inr v
  else match v with
       | [x] => inr (replicate n x)
       | _ => inl ValueError
       end.

(** [a[:, k] = v] for a one-dimensional [v] *)
Definition setitem_column (a : ndarray2) (k : nat) (v : list Q) : exn + ndarray2 :=
  if decide (k < shape1 a) then
    match broadcast_to (nrows a) v with
    | inl e => inl e
    | inr c => inr {| nrows := nrows a; columns := <[k := c]> (columns a) |}
    end
  else inl IndexError.

(** [a[:, k] = x] for a scalar [x] *)
Definition setitem_column_scalar (a : ndarray2) (k : nat) (x : Q) : exn + ndarray2 :=
  if decide (k < shape1 a)
  then inr {| nrows := nrows a; columns := <[k := replicate (nrows a) x]> (columns a) |}
  else inl IndexError.

(** [a[:, k]] *)
Definition column (a : ndarray2) (k : nat) : option (list Q) := columns a !! k.

End np.

(** ** Computations that mutate objects and may raise *)

Definition M (S A : Type) : Type := S → S * (exn + A).

Global Instance M_ret {S} : MRet (M S) := λ A x s, (s, inr x).

Global Instance M_bind {S} : MBind (M S) := λ A B k m s,
  match m s with
  | (s', inl e) => (s', inl e)
  | (s', inr x) => k x s'
  end.

(** A pure result or exception, raised in place. *)
Definition lift {S A} (x : exn + A) : M S A := λ s, (s, x).

Definition raise {S A} (e : exn) : M S A := lift (inl e).

(** [for x in xs: body(x)] *)
Fixpoint for_ {S A} (xs : list A) (body : A → M S ()) : M S () :=
  match xs with
  | [] => mret ()
  | x :: xs' => body x;; for_ xs' body
  end.

(** ** The collaborators

    The estimators, the planner and the two controllers are objects handed
    to the constructor; [WooferDynamics] and [WooferConfig] are imported
    modules.  None of them is part of [WooferRobot.py]: they
    are the parameters of the development.  [World] is the joint state of
    the collaborator objects and of the simulator; every call may change
    it and may raise. *)

Class Collaborators : Type := {
  Sim : Type;
  World : Type;
  RobotConfig : Type;
  GaitConfig : Type;
  SwingConfig : Type;
  QPConfig : Type;
  WOOFER_CONFIG : RobotConfig;
  GAIT_PLANNER_CONFIG : GaitConfig;
  SWING_CONTROLLER_CONFIG : SwingConfig;
  QP_CONFIG : QPConfig;
  (** [WOOFER_CONFIG.MASS] *)
  MASS : RobotConfig → Q;
  (** [self.state_estimator.update(sim)] *)
  state_estimator_update :
    Sim → World → World * (exn + gmap string (list Q));
  (** [self.contact_estimator.update(sim)] *)
  contact_estimator_update :
    Sim → World → World * (exn + list Q);
  (** [self.gait_planner.update(state, contacts, t, WOOFER_CONFIG, GAIT_PLANNER_CONFIG)],
      returning [(step_locations, p_step_locations, p_ref, rpy_ref,
      active_feet, phase, step_phase)] *)
  gait_planner_update :
    gmap string (list Q) → list Q → Q → RobotConfig → GaitConfig →
    World → World * (exn + (list Q * list Q * list Q * list Q * list Q * Q * Q));
  (** [self.swing_controller.update(state, step_phase, step_locations,
      p_step_locations, active_feet, WOOFER_CONFIG, SWING_CONTROLLER_CONFIG)],
      returning [(swing_torques, swing_forces, swing_trajectory, foot_positions)] *)
  swing_controller_update :
    gmap string (list Q) → Q → list Q → list Q → list Q → RobotConfig → SwingConfig →
    World → World * (exn + (list Q * list Q * list Q * list Q));
  (** [WooferDynamics.LegForwardKinematics(q, j)] *)
  LegForwardKinematics :
    list Q → list Q → World → World * (exn + list Q);
  (** [self.qp_controller.Update(qp_state, feet_locations, active_feet,
      p_ref, rpy_ref, foot_forces, WOOFER_CONFIG, QP_CONFIG)], returning
      [(qp_torques, foot_forces, ref_wrench)] *)
  qp_controller_Update :
    (list Q * list Q * list Q * list Q * list Q) → list Q → list Q → list Q → list Q →
    list Q → RobotConfig → QPConfig →
    World → World * (exn + (list Q * list Q * list Q));
}.

(** [MathUtils.RunningMax]: the class, its constructor and its [Update]
    method.  The class is not part of [WooferRobot.py]; the control loop
    is verified for every implementation of it. *)

Class MathUtils : Type := {
  RunningMaxT : Type;
  RunningMax : nat → RunningMaxT;
  RunningMax_Update : RunningMaxT → list Q → RunningMaxT;
}.

Section WooferRobot.

Context `{MathUtils} `{Collaborators}.

(** ** The robot object

    The attributes of a [WooferRobot].  [state] and [contacts] start as
    Python's [None]; [active_feet], [swing_forces], [feet_locations],
    [ref_wrench] and [torques] do not exist until the first tick assigns
    them ([None] here).  The five collaborator attributes are fixed
    references into [World]. *)

Record WooferRobot : Type := Build_WooferRobot {
  state : option (gmap string (list Q));
  contacts : option (list Q);
  max_torques : RunningMaxT;
  max_forces : RunningMaxT;
  data : gmap string np.ndarray2;
  dt : Q;
  t : Q;
  i : nat;
  foot_forces : list Q;
  phase : Q;
  step_phase : Q;
  step_locations : list Q;
  p_step_locations : list Q;
  swing_torques : list Q;
  swing_trajectory : list Q;
  foot_positions : list Q;
  active_feet : option (list Q);
  swing_forces : option (list Q);
  feet_locations : option (list Q);
  ref_wrench : option (list Q);
  torques : option (list Q);
}.

Definition set_state (v : option (gmap string (list Q))) (self : WooferRobot) : WooferRobot :=
  Build_WooferRobot v (contacts self) (max_torques self) (max_forces self) (data self)
    (dt self) (t self) (i self) (foot_forces self) (phase self) (step_phase self)
    (step_locations self) (p_step_locations self) (swing_torques self) (swing_trajectory
    self) (foot_positions self) (active_feet self) (swing_forces self) (feet_locations
    self) (ref_wrench self) (torques self).

Definition set_contacts (v : option (list Q)) (self : WooferRobot) : WooferRobot :=
  Build_WooferRobot (state self) v (max_torques self) (max_forces self) (data self) (dt
    self) (t self) (i self) (foot_forces self) (phase self) (step_phase self)
    (step_locations self) (p_step_locations self) (swing_torques self) (swing_trajectory
    self) (foot_positions self) (active_feet self) (swing_forces self) (feet_locations
    self) (ref_wrench self) (torques self).

Definition set_max_torques (v : RunningMaxT) (self : WooferRobot) : WooferRobot :=
  Build_WooferRobot (state self) (contacts self) v (max_forces self) (data self) (dt
    self) (t self) (i self) (foot_forces self) (phase self) (step_phase self)
    (step_locations self) (p_step_locations self) (swing_torques self) (swing_trajectory
    self) (foot_positions self) (active_feet self) (swing_forces self) (feet_locations
    self) (ref_wrench self) (torques self).

Definition set_max_forces (v : RunningMaxT) (self : WooferRobot) : WooferRobot :=
  Build_WooferRobot (state self) (contacts self) (max_torques self) v (data self) (dt
    self) (t self) (i self) (foot_forces self) (phase self) (step_phase self)
    (step_locations self) (p_step_locations self) (swing_torques self) (swing_trajectory
    self) (foot_positions self) (active_feet self) (swing_forces self) (feet_locations
    self) (ref_wrench self) (torques self).

Definition set_data (v : gmap string np.ndarray2) (self : WooferRobot) : WooferRobot :=
  Build_WooferRobot (state self) (contacts self) (max_torques self) (max_forces self) v
    (dt self) (t self) (i self) (foot_forces self) (phase self) (step_phase self)
    (step_locations self) (p_step_locations self) (swing_torques self) (swing_trajectory
    self) (foot_positions self) (active_feet self) (swing_forces self) (feet_locations
    self) (ref_wrench self) (torques self).

Definition set_t (v : Q) (self : WooferRobot) : WooferRobot :=
  Build_WooferRobot (state self) (contacts self) (max_torques self) (max_forces self)
    (data self) (dt self) v (i self) (foot_forces self) (phase self) (step_phase self)
    (step_locations self) (p_step_locations self) (swing_torques self) (swing_trajectory
    self) (foot_positions self) (active_feet self) (swing_forces self) (feet_locations
    self) (ref_wrench self) (torques self).

Definition set_i (v : nat) (self : WooferRobot) : WooferRobot :=
  Build_WooferRobot (state self) (contacts self) (max_torques self) (max_forces self)
    (data self) (dt self) (t self) v (foot_forces self) (phase self) (step_phase self)
    (step_locations self) (p_step_locations self) (swing_torques self) (swing_trajectory
    self) (foot_positions self) (active_feet self) (swing_forces self) (feet_locations
    self) (ref_wrench self) (torques self).

Definition set_foot_forces (v : list Q) (self : WooferRobot) : WooferRobot :=
  Build_WooferRobot (state self) (contacts self) (max_torques self) (max_forces self)
    (data self) (dt self) (t self) (i self) v (phase self) (step_phase self)
    (step_locations self) (p_step_locations self) (swing_torques self) (swing_trajectory
    self) (foot_positions self) (active_feet self) (swing_forces self) (feet_locations
    self) (ref_wrench self) (torques self).

Definition set_phase (v : Q) (self : WooferRobot) : WooferRobot :=
  Build_WooferRobot (state self) (contacts self) (max_torques self) (max_forces self)
    (data self) (dt self) (t self) (i self) (foot_forces self) v (step_phase self)
    (step_locations self) (p_step_locations self) (swing_torques self) (swing_trajectory
    self) (foot_positions self) (active_feet self) (swing_forces self) (feet_locations
    self) (ref_wrench self) (torques self).

Definition set_step_phase (v : Q) (self : WooferRobot) : WooferRobot :=
  Build_WooferRobot (state self) (contacts self) (max_torques self) (max_forces self)
    (data self) (dt self) (t self) (i self) (foot_forces self) (phase self) v
    (step_locations self) (p_step_locations self) (swing_torques self) (swing_trajectory
    self) (foot_positions self) (active_feet self) (swing_forces self) (feet_locations
    self) (ref_wrench self) (torques self).

Definition set_step_locations (v : list Q) (self : WooferRobot) : WooferRobot :=
  Build_WooferRobot (state self) (contacts self) (max_torques self) (max_forces self)
    (data self) (dt self) (t self) (i self) (foot_forces self) (phase self) (step_phase
    self) v (p_step_locations self) (swing_torques self) (swing_trajectory self)
    (foot_positions self) (active_feet self) (swing_forces self) (feet_locations self)
    (ref_wrench self) (torques self).

Definition set_p_step_locations (v : list Q) (self : WooferRobot) : WooferRobot :=
  Build_WooferRobot (state self) (contacts self) (max_torques self) (max_forces self)
    (data self) (dt self) (t self) (i self) (foot_forces self) (phase self) (step_phase
    self) (step_locations self) v (swing_torques self) (swing_trajectory self)
    (foot_positions self) (active_feet self) (swing_forces self) (feet_locations self)
    (ref_wrench self) (torques self).

Definition set_swing_torques (v : list Q) (self : WooferRobot) : WooferRobot :=
  Build_WooferRobot (state self) (contacts self) (max_torques self) (max_forces self)
    (data self) (dt self) (t self) (i self) (foot_forces self) (phase self) (step_phase
    self) (step_locations self) (p_step_locations self) v (swing_trajectory self)
    (foot_positions self) (active_feet self) (swing_forces self) (feet_locations self)
    (ref_wrench self) (torques self).

Definition set_swing_trajectory (v : list Q) (self : WooferRobot) : WooferRobot :=
  Build_WooferRobot (state self) (contacts self) (max_torques self) (max_forces self)
    (data self) (dt self) (t self) (i self) (foot_forces self) (phase self) (step_phase
    self) (step_locations self) (p_step_locations self) (swing_torques self) v
    (foot_positions self) (active_feet self) (swing_forces self) (feet_locations self)
    (ref_wrench self) (torques self).

Definition set_foot_positions (v : list Q) (self : WooferRobot) : WooferRobot :=
  Build_WooferRobot (state self) (contacts self) (max_torques self) (max_forces self)
    (data self) (dt self) (t self) (i self) (foot_forces self) (phase self) (step_phase
    self) (step_locations self) (p_step_locations self) (swing_torques self)
    (swing_trajectory self) v (active_feet self) (swing_forces self) (feet_locations
    self) (ref_wrench self) (torques self).

Definition set_active_feet (v : option (list Q)) (self : WooferRobot) : WooferRobot :=
  Build_WooferRobot (state self) (contacts self) (max_torques self) (max_forces self)
    (data self) (dt self) (t self) (i self) (foot_forces self) (phase self) (step_phase
    self) (step_locations self) (p_step_locations self) (swing_torques self)
    (swing_trajectory self) (foot_positions self) v (swing_forces self) (feet_locations
    self) (ref_wrench self) (torques self).

Definition set_swing_forces (v : option (list Q)) (self : WooferRobot) : WooferRobot :=
  Build_WooferRobot (state self) (contacts self) (max_torques self) (max_forces self)
    (data self) (dt self) (t self) (i self) (foot_forces self) (phase self) (step_phase
    self) (step_locations self) (p_step_locations self) (swing_torques self)
    (swing_trajectory self) (foot_positions self) (active_feet self) v (feet_locations
    self) (ref_wrench self) (torques self).

Definition set_feet_locations (v : option (list Q)) (self : WooferRobot) : WooferRobot :=
  Build_WooferRobot (state self) (contacts self) (max_torques self) (max_forces self)
    (data self) (dt self) (t self) (i self) (foot_forces self) (phase self) (step_phase
    self) (step_locations self) (p_step_locations self) (swing_torques self)
    (swing_trajectory self) (foot_positions self) (active_feet self) (swing_forces self)
    v (ref_wrench self) (torques self).

Definition set_ref_wrench (v : option (list Q)) (self : WooferRobot) : WooferRobot :=
  Build_WooferRobot (state self) (contacts self) (max_torques self) (max_forces self)
    (data self) (dt self) (t self) (i self) (foot_forces self) (phase self) (step_phase
    self) (step_locations self) (p_step_locations self) (swing_torques self)
    (swing_trajectory self) (foot_positions self) (active_feet self) (swing_forces self)
    (feet_locations self) v (torques self).

Definition set_torques (v : option (list Q)) (self : WooferRobot) : WooferRobot :=
  Build_WooferRobot (state self) (contacts self) (max_torques self) (max_forces self)
    (data self) (dt self) (t self) (i self) (foot_forces self) (phase self) (step_phase
    self) (step_locations self) (p_step_locations self) (swing_torques self)
    (swing_trajectory self) (foot_positions self) (active_feet self) (swing_forces self)
    (feet_locations self) (ref_wrench self) v.

(** The mutable store of a method call: the robot and the collaborators. *)
Definition Store : Type := WooferRobot * World.

(** [self] *)
Definition this : M Store WooferRobot := λ s, (s, inr s.1).

(** Assignment to attributes of [self]. *)
Definition assign (f : WooferRobot → WooferRobot) : M Store () :=
  λ s, ((f s.1, s.2), inr ()).

(** A call into a collaborator. *)
Definition call {A} (f : World → World * (exn + A)) : M Store A :=
  λ s, ((s.1, (f s.2).1), (f s.2).2).

(** Reading an attribute that may not exist yet. *)
Definition getattr {A} (o : option A) : M Store A :=
  match o with
  | Some x => mret x
  | None => raise AttributeError
  end.

(** Using a value that may be [None] where an array or dict is needed. *)
Definition not_None {A} (o : option A) : M Store A :=
  match o with
  | Some x => mret x
  | None => raise TypeError
  end.

(** [d[key]] *)
Definition getitem {V} (d : gmap string V) (key : string) : M Store V :=
  match d !! key with
  | Some x => mret x
  | None => raise KeyError
  end.

(** [d.keys()] *)
Definition keys {V} (d : gmap string V) : list string := (map_to_list d).*1.

(** ** [__init__] *)

Definition init_data_size : nat := 10.

Definition __init__ (dt_ : Q) : WooferRobot :=
  let data0 : gmap string np.ndarray2 := ∅ in
  let data1 := <["torque_history" := np.zeros2 12 init_data_size]> data0 in
  let data2 := <["force_history" := np.zeros2 12 init_data_size]> data1 in
  let data3 := <["ref_wrench_history" := np.zeros2 6 init_data_size]> data2 in
  let data4 := <["contacts_history" := np.zeros2 4 init_data_size]> data3 in
  let data5 := <["active_feet_history" := np.zeros2 4 init_data_size]> data4 in
  let data6 := <["swing_torque_history" := np.zeros2 12 init_data_size]> data5 in
  let data7 := <["swing_force_history" := np.zeros2 12 init_data_size]> data6 in
  let data8 := <["swing_trajectory" := np.zeros2 12 init_data_size]> data7 in
  let data9 := <["foot_positions" := np.zeros2 12 init_data_size]> data8 in
  let data10 := <["phase_history" := np.zeros2 1 init_data_size]> data9 in
  let data11 := <["step_phase_history" := np.zeros2 1 init_data_size]> data10 in
  {| state := None;
     contacts := None;
     max_torques := RunningMax 12;
     max_forces := RunningMax 12;
     data := data11;
     dt := dt_;
     t := 0;
     i := 0;
     foot_forces := concat (replicate 4 [0; 0; MASS WOOFER_CONFIG * 9.81 / 4])%Q;
     phase := 0;
     step_phase := 0;
     step_locations := np.zeros 12;
     p_step_locations := np.zeros 12;
     swing_torques := np.zeros 12;
     swing_trajectory := np.zeros 12;
     foot_positions := np.zeros 12;
     active_feet := None;
     swing_forces := None;
     feet_locations := None;
     ref_wrench := None;
     torques := None |}.

(** ** [log_data] *)

(** [self.data[key][:, self.i] = v] *)
Definition log_column (key : string) (v : list Q) : M Store () :=
  self ← this;
  a ← getitem (data self) key;
  a' ← lift (np.setitem_column a (i self) v);
  assign (set_data (<[key := a']> (data self))).

(** [self.data[key][:, self.i] = x] for a scalar [x] *)
Definition log_scalar (key : string) (x : Q) : M Store () :=
  self ← this;
  a ← getitem (data self) key;
  a' ← lift (np.setitem_column_scalar a (i self) x);
  assign (set_data (<[key := a']> (data self))).

Definition log_data : M Store () :=
  self ← this;
  a ← getitem (data self) "torque_history";
  let data_len := np.shape1 a in
  (if bool_decide (Z.of_nat (i self) > Z.of_nat data_len - 1)%Z then
     for_ (keys (data self)) (λ key,
       self ← this;
       a ← getitem (data self) key;
       a' ← lift (np.append_axis1 a (np.zeros2 (np.shape0 a) 1000));
       assign (set_data (<[key := a']> (data self))))
   else mret ());;
  self ← this;
  assign (set_max_forces (RunningMax_Update (max_forces self) (foot_forces self)));;
  self ← this;
  v ← getattr (torques self);
  assign (set_max_torques (RunningMax_Update (max_torques self) v));;
  self ← this; v ← getattr (torques self); log_column "torque_history" v;;
  self ← this; log_column "force_history" (foot_forces self);;
  self ← this; v ← getattr (ref_wrench self); log_column "ref_wrench_history" v;;
  self ← this; v ← not_None (contacts self); log_column "contacts_history" v;;
  self ← this; v ← getattr (active_feet self); log_column "active_feet_history" v;;
  self ← this; log_column "swing_torque_history" (swing_torques self);;
  self ← this; v ← getattr (swing_forces self); log_column "swing_force_history" v;;
  self ← this; log_column "swing_trajectory" (swing_trajectory self);;
  self ← this; log_column "foot_positions" (foot_positions self);;
  self ← this; log_scalar "phase_history" (phase self);;
  self ← this; log_scalar "step_phase_history" (step_phase self).

(** ** [step] *)

Definition step (sim : Sim) : M Store (list Q) :=
  (* State & contact estimation *)
  v ← call (state_estimator_update sim);
  assign (set_state (Some v));;
  v ← call (contact_estimator_update sim);
  assign (set_contacts (Some v));;
  (* Gait planning *)
  self ← this;
  st ← not_None (state self);
  cs ← not_None (contacts self);
  '(sl, psl, p_ref, rpy_ref, af, ph, sph) ←
    call (gait_planner_update st cs (t self) WOOFER_CONFIG GAIT_PLANNER_CONFIG);
  assign (set_step_locations sl);;
  assign (set_p_step_locations psl);;
  assign (set_active_feet (Some af));;
  assign (set_phase ph);;
  assign (set_step_phase sph);;
  (* Swing leg control *)
  self ← this;
  st ← not_None (state self);
  af ← getattr (active_feet self);
  '(swt, swf, swj, fp) ←
    call (swing_controller_update st (step_phase self) (step_locations self)
            (p_step_locations self) af WOOFER_CONFIG SWING_CONTROLLER_CONFIG);
  assign (set_swing_torques swt);;
  assign (set_swing_forces (Some swf));;
  assign (set_swing_trajectory swj);;
  assign (set_foot_positions fp);;
  (* QP force control *)
  self ← this;
  st ← not_None (state self);
  p ← getitem st "p";
  p_d ← getitem st "p_d";
  q ← getitem st "q";
  w ← getitem st "w";
  j ← getitem st "j";
  let qp_state := (p, p_d, q, w, j) in
  q ← getitem st "q";
  j ← getitem st "j";
  v ← call (LegForwardKinematics q j);
  assign (set_feet_locations (Some v));;
  self ← this;
  fl ← getattr (feet_locations self);
  af ← getattr (active_feet self);
  '(qp_torques, ff, rw) ←
    call (qp_controller_Update qp_state fl af p_ref rpy_ref (foot_forces self)
            WOOFER_CONFIG QP_CONFIG);
  assign (set_foot_forces ff);;
  assign (set_ref_wrench (Some rw));;
  (* Expanded version of active feet *)
  self ← this;
  af ← getattr (active_feet self);
  active_feet_12 ← lift (np.take af [0; 0; 0; 1; 1; 1; 2; 2; 2; 3; 3; 3]);
  (* Mix the QP-generated and PD-generated torques *)
  self ← this;
  x ← lift (np.multiply active_feet_12 qp_torques);
  y ← lift (np.multiply (np.rsub 1 active_feet_12) (swing_torques self));
  v ← lift (np.add x y);
  assign (set_torques (Some v));;
  (* Update our record of the maximum force/torque *)
  self ← this;
  assign (set_max_forces (RunningMax_Update (max_forces self) (foot_forces self)));;
  self ← this;
  v ← getattr (torques self);
  assign (set_max_torques (RunningMax_Update (max_torques self) v));;
  (* Log stuff *)
  log_data;;
  (* Step time forward *)
  self ← this;
  assign (set_t (t self + dt self)%Q);;
  self ← this;
  assign (set_i (i self + 1));;
  self ← this;
  getattr (torques self).

End WooferRobot.

(** ** Implementations of the parameters *)

(** Modelled from the spec: [MathUtils.RunningMax] is absent from the
    sources.  It keeps, per channel, the largest absolute value seen so
    far, starting from zero: [update] sets [max[k]] to
    [max(max[k], |vector[k]|)]. *)
Definition running_max : MathUtils :=
  {| RunningMaxT := list Q;
     RunningMax := np.zeros;
     RunningMax_Update := λ m v, zip_with (λ x y, Qmax x (Qabs y)) m v |}.

(** A tracker that only counts how often [Update] is called on it. *)
Definition counting : MathUtils :=
  {| RunningMaxT := nat;
     RunningMax := λ _, 0;
     RunningMax_Update := λ n _, S n |}.

(** A small bench of collaborators.  The simulator snapshot is the body
    height and the four contact flags; the state estimate carries the
    height, the planner puts the feet in contact in stance, the swing
    controller returns fixed values, forward kinematics returns the joint
    angles, and the stance solver is infeasible when the body lies on the
    ground and otherwise returns the previous foot forces raised by one;
    [World] counts the solves. *)
Module Bench.

Definition state_of (height : Q) : gmap string (list Q) :=
  <["j" := np.zeros 12]> (<["w" := np.zeros 3]> (<["q" := [1; 0; 0; 0]%Q]>
    (<["p_d" := np.zeros 3]> (<["p" := [0; 0; height]%Q]> ∅)))).

Definition stance_solver (qp_state : list Q * list Q * list Q * list Q * list Q)
    (prev : list Q) (n : nat) : nat * (exn + (list Q * list Q * list Q)) :=
  match qp_state.1.1.1.1 !! 2 with
  | Some height =>
      if Qle_bool height 0 then (n, inl InfeasibleSolveError)
      else (S n, inr (replicate 12 5%Q, map (Qplus 1) prev, np.zeros 6))
  | None => (n, inl InfeasibleSolveError)
  end.

Definition collaborators : Collaborators :=
  {| Sim := Q * list Q;
     World := nat;
     RobotConfig := Q;
     GaitConfig := ();
     SwingConfig := ();
     QPConfig := ();
     WOOFER_CONFIG := 8%Q;
     GAIT_PLANNER_CONFIG := ();
     SWING_CONTROLLER_CONFIG := ();
     QP_CONFIG := ();
     MASS := λ m, m;
     state_estimator_update := λ sim n, (n, inr (state_of sim.1));
     contact_estimator_update := λ sim n, (n, inr sim.2);
     gait_planner_update := λ st cs t _ _ n,
       (n, inr (np.zeros 12, np.zeros 12, [0; 0; 0.32]%Q, np.zeros 3, cs, t, t));
     swing_controller_update := λ st sph sl psl af _ _ n,
       (n, inr (replicate 12 2%Q, replicate 12 3%Q, np.zeros 12, np.zeros 12));
     LegForwardKinematics := λ q j n, (n, inr j);
     qp_controller_Update := λ qs fl af p_ref rpy_ref prev _ _ n,
       stance_solver qs prev n |}.

End Bench.

(** ** Observing the collaborator interface

    [spy C] behaves as [C] and keeps, next to the world of [C], the log of
    the calls made so far: which collaborator was called, with which
    arguments, and what it returned or raised. *)

Section Spy.

Context (C : Collaborators).

Inductive Event : Type :=
  | StateEstimation (sim : Sim) (out : exn + gmap string (list Q))
  | ContactEstimation (sim : Sim) (out : exn + list Q)
  | GaitPlanning (state : gmap string (list Q)) (contacts : list Q) (t : Q)
      (rc : RobotConfig) (gc : GaitConfig)
      (out : exn + (list Q * list Q * list Q * list Q * list Q * Q * Q))
  | SwingLegControl (state : gmap string (list Q)) (step_phase : Q)
      (step_locations p_step_locations active_feet : list Q)
      (rc : RobotConfig) (sc : SwingConfig)
      (out : exn + (list Q * list Q * list Q * list Q))
  | ForwardKinematics (q j : list Q) (out : exn + list Q)
  | StanceForceControl (qp_state : list Q * list Q * list Q * list Q * list Q)
      (feet_locations active_feet p_ref rpy_ref previous_foot_forces : list Q)
      (rc : RobotConfig) (qc : QPConfig)
      (out : exn + (list Q * list Q * list Q)).

(** The exception an observed call ended with, if it raised. *)
Definition raised (ev : Event) : option exn :=
  match ev with
  | StateEstimation _ (inl e)
  | ContactEstimation _ (inl e)
  | GaitPlanning _ _ _ _ _ (inl e)
  | SwingLegControl _ _ _ _ _ _ _ (inl e)
  | ForwardKinematics _ _ (inl e)
  | StanceForceControl _ _ _ _ _ _ _ _ (inl e) => Some e
  | _ => None
  end.

Definition observe {A} (ev : exn + A → Event) (f : World → World * (exn + A))
    : World * list Event → (World * list Event) * (exn + A) :=
  λ s, (((f s.1).1, s.2 ++ [ev (f s.1).2]), (f s.1).2).

Definition spy : Collaborators :=
  {| Sim := Sim;
     World := World * list Event;
     WOOFER_CONFIG := WOOFER_CONFIG;
     GAIT_PLANNER_CONFIG := GAIT_PLANNER_CONFIG;
     SWING_CONTROLLER_CONFIG := SWING_CONTROLLER_CONFIG;
     QP_CONFIG := QP_CONFIG;
     MASS := MASS;
     state_estimator_update := λ sim,
       observe (StateEstimation sim) (state_estimator_update sim);
     contact_estimator_update := λ sim,
       observe (ContactEstimation sim) (contact_estimator_update sim);
     gait_planner_update := λ st cs t rc gc,
       observe (GaitPlanning st cs t rc gc) (gait_planner_update st cs t rc gc);
     swing_controller_update := λ st sph sl psl af rc sc,
       observe (SwingLegControl st sph sl psl af rc sc)
               (swing_controller_update st sph sl psl af rc sc);
     LegForwardKinematics := λ q j,
       observe (ForwardKinematics q j) (LegForwardKinematics q j);
     qp_controller_Update := λ qs fl af p_ref rpy_ref prev rc qc,
       observe (StanceForceControl qs fl af p_ref rpy_ref prev rc qc)
               (qp_controller_Update qs fl af p_ref rpy_ref prev rc qc) |}.

End Spy.

Arguments raised {C} ev.

(** ** Vocabulary of the specification *)

Section Specification.

Context `{MathUtils} `{Collaborators}.

(** The values that enter the robot during one tick: what the
    collaborators return, and the local [qp_state] built from the state
    estimate.  Attributes of [self] carry the prefix [tick_]; the locals
    [p_ref], [rpy_ref], [qp_state] and [qp_torques] keep their names. *)
Record Tick : Type := {
  tick_state : gmap string (list Q);
  tick_contacts : list Q;
  tick_step_locations : list Q;
  tick_p_step_locations : list Q;
  p_ref : list Q;
  rpy_ref : list Q;
  tick_active_feet : list Q;
  tick_phase : Q;
  tick_step_phase : Q;
  tick_swing_torques : list Q;
  tick_swing_forces : list Q;
  tick_swing_trajectory : list Q;
  tick_foot_positions : list Q;
  qp_state : list Q * list Q * list Q * list Q * list Q;
  tick_feet_locations : list Q;
  qp_torques : list Q;
  tick_foot_forces : list Q;
  tick_ref_wrench : list Q;
}.

(** The six collaborator calls of a tick started on robot [r] in world
    [w] return the values of [k], in this order, and leave the world [w']. *)
Definition consults (sim : Sim) (r : WooferRobot) (w : World) (k : Tick) (w' : World)
    : Prop :=
  ∃ w1 w2 w3 w4 w5 p p_d q wq j,
    state_estimator_update sim w = (w1, inr (tick_state k)) ∧
    contact_estimator_update sim w1 = (w2, inr (tick_contacts k)) ∧
    gait_planner_update (tick_state k) (tick_contacts k) (t r)
        WOOFER_CONFIG GAIT_PLANNER_CONFIG w2
      = (w3, inr (tick_step_locations k, tick_p_step_locations k, p_ref k, rpy_ref k,
                  tick_active_feet k, tick_phase k, tick_step_phase k)) ∧
    swing_controller_update (tick_state k) (tick_step_phase k) (tick_step_locations k)
        (tick_p_step_locations k) (tick_active_feet k)
        WOOFER_CONFIG SWING_CONTROLLER_CONFIG w3
      = (w4, inr (tick_swing_torques k, tick_swing_forces k, tick_swing_trajectory k,
                  tick_foot_positions k)) ∧
    tick_state k !! "p" = Some p ∧ tick_state k !! "p_d" = Some p_d ∧
    tick_state k !! "q" = Some q ∧ tick_state k !! "w" = Some wq ∧
    tick_state k !! "j" = Some j ∧
    qp_state k = (p, p_d, q, wq, j) ∧
    LegForwardKinematics q j w4 = (w5, inr (tick_feet_locations k)) ∧
    qp_controller_Update (qp_state k) (tick_feet_locations k) (tick_active_feet k)
        (p_ref k) (rpy_ref k) (foot_forces r) WOOFER_CONFIG QP_CONFIG w5
      = (w', inr (qp_torques k, tick_foot_forces k, tick_ref_wrench k)).

(** [mask12] is the per-joint expansion of the tick's active-feet mask
    and [tau] the mix of the stance and swing torques under it. *)
Definition mixed (k : Tick) (mask12 tau : list Q) : Prop :=
  ∃ x y,
    np.take (tick_active_feet k) [0; 0; 0; 1; 1; 1; 2; 2; 2; 3; 3; 3] = inr mask12 ∧
    np.multiply mask12 (qp_torques k) = inr x ∧
    np.multiply (np.rsub 1 mask12) (tick_swing_torques k) = inr y ∧
    np.add x y = inr tau.

(** The attributes of the robot once the tick has assigned them.  The
    running maxima, the recorder and the clock are those of [r]. *)
Definition assigned (r : WooferRobot) (k : Tick) (tau : list Q) : WooferRobot :=
  {| state := Some (tick_state k);
     contacts := Some (tick_contacts k);
     max_torques := max_torques r;
     max_forces := max_forces r;
     data := data r;
     dt := dt r;
     t := t r;
     i := i r;
     foot_forces := tick_foot_forces k;
     phase := tick_phase k;
     step_phase := tick_step_phase k;
     step_locations := tick_step_locations k;
     p_step_locations := tick_p_step_locations k;
     swing_torques := tick_swing_torques k;
     swing_trajectory := tick_swing_trajectory k;
     foot_positions := tick_foot_positions k;
     active_feet := Some (tick_active_feet k);
     swing_forces := Some (tick_swing_forces k);
     feet_locations := Some (tick_feet_locations k);
     ref_wrench := Some (tick_ref_wrench k);
     torques := Some tau |}.

(** The robot as [step] hands it to [log_data]: everything assigned and
    both trackers updated by [step] itself. *)
Definition before_log (r : WooferRobot) (k : Tick) (tau : list Q) : WooferRobot :=
  set_max_torques (RunningMax_Update (max_torques r) tau)
    (set_max_forces (RunningMax_Update (max_forces r) (tick_foot_forces k))
       (assigned r k tau)).

(** A computation relates the robot before to the robot after, whatever
    its outcome. *)
Definition respects {A} (R : relation WooferRobot) (m : M Store A) : Prop :=
  ∀ s, R s.1 (m s).1.1.

(** A computation leaves the collaborators alone. *)
Definition local {A} (m : M Store A) : Prop := ∀ s, (m s).1.2 = s.2.

Definition clock (r r' : WooferRobot) : Prop :=
  t r' = t r ∧ i r' = i r ∧ dt r' = dt r.

Definition unlogged (r r' : WooferRobot) : Prop :=
  clock r r' ∧ data r' = data r.

(** The end of a tick, from the call of [log_data] on. *)
Definition finish_tick : M Store (list Q) :=
  log_data;;
  self ← this;
  assign (set_t (t self + dt self)%Q);;
  self ← this;
  assign (set_i (i self + 1));;
  self ← this;
  getattr (torques self).

(** A tick either fails before anything is logged, or reaches [log_data]
    with the clock and the recorder untouched. *)
Definition reaches_log (m : M Store (list Q)) : Prop :=
  ∀ s, (∃ e, (m s).2 = inl e ∧ unlogged s.1 (m s).1.1)
     ∨ (∃ s1, unlogged s.1 s1.1 ∧ m s = finish_tick s1).

(** What one growth step does to a buffer: 1000 zero columns appended. *)
Definition grow (a : np.ndarray2) : np.ndarray2 :=
  np.mk2 (np.nrows a) (np.columns a ++ replicate 1000 (np.zeros (np.nrows a))).

Definition grow_key (d : gmap string np.ndarray2) (key : string)
    : gmap string np.ndarray2 :=
  match d !! key with
  | Some a => <[key := grow a]> d
  | None => d
  end.

(** The recorder as [log_data] finds it after its capacity check. *)
Definition checked (r : WooferRobot) : gmap string np.ndarray2 :=
  match data r !! "torque_history" with
  | Some a =>
      if bool_decide (Z.of_nat (i r) > Z.of_nat (np.shape1 a) - 1)%Z
      then grow <$> data r else data r
  | None => data r
  end.

(** Column [k] of channel [key] of [d'] is [v] (broadcast to the channel's
    width), written over the buffer the channel has in [d]. *)
Definition written (d d' : gmap string np.ndarray2) (k : nat) (key : string)
    (v : list Q) : Prop :=
  ∃ a c, d !! key = Some a ∧ k < np.shape1 a ∧
         np.broadcast_to (np.nrows a) v = inr c ∧
         d' !! key = Some (np.mk2 (np.nrows a) (<[k := c]> (np.columns a))).

(** The columns [log_data] writes: channel and value. *)
Definition log_row (r : WooferRobot) (tq rw cs af swf : list Q)
    : list (string * list Q) :=
  [("torque_history", tq); ("force_history", foot_forces r);
   ("ref_wrench_history", rw); ("contacts_history", cs);
   ("active_feet_history", af); ("swing_torque_history", swing_torques r);
   ("swing_force_history", swf); ("swing_trajectory", swing_trajectory r);
   ("foot_positions", foot_positions r); ("phase_history", [phase r]);
   ("step_phase_history", [step_phase r])].

End Specification.

(** ** Runs of the control loop *)

Section Runs.

Context `{MathUtils} `{Collaborators}.

(** [run n r r']: some sequence of ticks takes the robot [r] to [r'],
    and [n] of them succeed.  Between ticks the world moves on freely. *)
Inductive run : nat → WooferRobot → WooferRobot → Prop :=
  | run_done r : run 0 r r
  | run_tick n r sim w r1 w1 tau r2 :
      step sim (r, w) = ((r1, w1), inr tau) → run n r1 r2 → run (S n) r r2
  | run_failed_tick n r sim w r1 w1 e r2 :
      step sim (r, w) = ((r1, w1), inl e) → run n r1 r2 → run n r r2.

(** The robots a driver can hold: a fresh one, or one that went through a
    tick, successful or not. *)
Inductive reachable : WooferRobot → Prop :=
  | reachable_init d : reachable (__init__ d)
  | reachable_step r sim w r1 w1 res :
      reachable r → step sim (r, w) = ((r1, w1), res) → reachable r1.

(** Every channel of the recorder has [cap] columns. *)
Definition shared_capacity (d : gmap string np.ndarray2) (cap : nat) : Prop :=
  ∀ key a, d !! key = Some a → np.shape1 a = cap.

(** Between ticks: the channels share a capacity the tick index has not
    passed. *)
Definition recorder_ok (r : WooferRobot) : Prop :=
  is_Some (data r !! "torque_history") ∧
  ∃ cap, shared_capacity (data r) cap ∧ i r ≤ cap.

(** While writing: the tick index is a column of every channel. *)
Definition room (r : WooferRobot) : Prop :=
  is_Some (data r !! "torque_history") ∧
  ∃ cap, shared_capacity (data r) cap ∧ i r < cap.

(** Same tick index, same channels, same capacities. *)
Definition shape_kept (r r' : WooferRobot) : Prop :=
  i r' = i r ∧ ∀ key, np.shape1 <$> data r' !! key = np.shape1 <$> data r !! key.

(** A computation started with room for the row never raises [IndexError]. *)
Definition in_bounds {A} (m : M Store A) : Prop :=
  ∀ s, room s.1 → (m s).2 ≠ inl IndexError.

End Runs.

(** ** The log of a tick *)

Section Observed.

Context `{MathUtils} (C : Collaborators).

(** The calls of a successful tick with values [k], as [spy C] logs them. *)
Definition tick_events (sim : @Sim C) (r : WooferRobot) (k : Tick) : list (Event C) :=
  [ StateEstimation C sim (inr (tick_state k));
    ContactEstimation C sim (inr (tick_contacts k));
    GaitPlanning C (tick_state k) (tick_contacts k) (t r)
      WOOFER_CONFIG GAIT_PLANNER_CONFIG
      (inr (tick_step_locations k, tick_p_step_locations k, p_ref k, rpy_ref k,
            tick_active_feet k, tick_phase k, tick_step_phase k));
    SwingLegControl C (tick_state k) (tick_step_phase k) (tick_step_locations k)
      (tick_p_step_locations k) (tick_active_feet k)
      WOOFER_CONFIG SWING_CONTROLLER_CONFIG
      (inr (tick_swing_torques k, tick_swing_forces k, tick_swing_trajectory k,
            tick_foot_positions k));
    ForwardKinematics C (qp_state k).1.1.2 (qp_state k).2
      (inr (tick_feet_locations k));
    StanceForceControl C (qp_state k) (tick_feet_locations k) (tick_active_feet k)
      (p_ref k) (rpy_ref k) (foot_forces r) WOOFER_CONFIG QP_CONFIG
      (inr (qp_torques k, tick_foot_forces k, tick_ref_wrench k)) ].

(** The stance solves among some logged calls: the previous foot forces
    each was given and what it returned. *)
Definition stance_calls (evs : list (Event C))
    : list (list Q * (exn + (list Q * list Q * list Q))) :=
  omap (λ ev, match ev with
              | StanceForceControl _ _ _ _ _ _ prev _ _ out => Some (prev, out)
              | _ => None
              end) evs.

(** The part of [log'] that was added to [log]. *)
Definition added (log log' : list (Event C)) : list (Event C) :=
  drop (length log) log'.

(** A computation on [spy C] that logs its calls, leaves the clock and
    the recorder alone, and fails with the exception of a call that
    raised, which is then the last one logged. *)
Definition consulting {A} (m : M (@Store _ (spy C)) A) : Prop :=
  ∀ s, ∃ evs,
    (m s).1.2.2 = s.2.2 ++ evs ∧
    unlogged s.1 (m s).1.1 ∧
    ∀ ev e, ev ∈ evs → raised ev = Some e → (m s).2 = inl e ∧ last evs = Some ev.

(** A computation on [spy C] in which a call that raises ends the
    computation with that exception, clock and recorder untouched. *)
Definition aborts {A} (m : M (@Store _ (spy C)) A) : Prop :=
  ∀ s, ∃ evs,
    (m s).1.2.2 = s.2.2 ++ evs ∧
    ∀ ev e, ev ∈ evs → raised ev = Some e →
      (m s).2 = inl e ∧ unlogged s.1 (m s).1.1 ∧ last evs = Some ev.

(** [m'] on [spy C] does to the robot and the world what [m] does on [C]. *)
Definition mirrors {A} (m' : M (@Store _ (spy C)) A) (m : M (@Store _ C) A) : Prop :=
  ∀ r w log,
    m (r, w) = (((m' (r, (w, log))).1.1, (m' (r, (w, log))).1.2.1), (m' (r, (w, log))).2).

End Observed.

(** ** Trial runs on the bench *)

Module Trial.

Definition robot0 : @WooferRobot running_max :=
  @__init__ running_max Bench.collaborators 0.001.

(** Standing 32 cm high, feet 0 and 2 on the ground. *)
Definition trot : @Sim Bench.collaborators := (0.32, [1; 0; 1; 0])%Q.

(** Lying on the ground. *)
Definition fallen : @Sim Bench.collaborators := (0, [1; 1; 1; 1])%Q.

(** The values of the first tick on [trot]. *)
Definition tick0 : Tick :=
  {| tick_state := Bench.state_of 0.32;
     tick_contacts := [1; 0; 1; 0]%Q;
     tick_step_locations := np.zeros 12;
     tick_p_step_locations := np.zeros 12;
     p_ref := [0; 0; 0.32]%Q;
     rpy_ref := np.zeros 3;
     tick_active_feet := [1; 0; 1; 0]%Q;
     tick_phase := 0;
     tick_step_phase := 0;
     tick_swing_torques := replicate 12 2%Q;
     tick_swing_forces := replicate 12 3%Q;
     tick_swing_trajectory := np.zeros 12;
     tick_foot_positions := np.zeros 12;
     qp_state := (([0; 0; 0.32], np.zeros 3, [1; 0; 0; 0], np.zeros 3, np.zeros 12))%Q;
     tick_feet_locations := np.zeros 12;
     qp_torques := replicate 12 5%Q;
     tick_foot_forces := map (Qplus 1) (foot_forces robot0);
     tick_ref_wrench := np.zeros 6 |}.

(** [n] ticks on the same snapshot, stopping at the first failure. *)
Fixpoint run `{MathUtils} `{Collaborators} (n : nat) (sim : Sim) (s : Store)
    : Store * (exn + ()) :=
  match n with
  | 0 => (s, inr ())
  | S n' =>
      match step sim s with
      | (s', inl e) => (s', inl e)
      | (s', inr _) => run n' sim s'
      end
  end.

(** The robot after ten ticks on [trot]: the recorder is full. *)
Definition robot10 : @WooferRobot running_max :=
  (@run running_max Bench.collaborators 10 trot (robot0, 0)).1.1.

(** The first two ticks on [trot] and a tick on [fallen], with the calls
    logged. *)
Definition spied0 :=
  @step running_max (spy Bench.collaborators) trot (robot0, (0, [])).

Definition spied1 :=
  @step running_max (spy Bench.collaborators) trot spied0.1.

Definition crashed :=
  @step running_max (spy Bench.collaborators) fallen (robot0, (0, [])).

(** The stance solve of [crashed]. *)
Definition infeasible : Event Bench.collaborators :=
  StanceForceControl Bench.collaborators
    ([0; 0; 0], np.zeros 3, [1; 0; 0; 0], np.zeros 3, np.zeros 12)%Q
    (np.zeros 12) [1; 1; 1; 1]%Q [0; 0; 0.32]%Q (np.zeros 3) (foot_forces robot0)
    8%Q () (inl InfeasibleSolveError).

End Trial.

(** ** The recorder over time *)

Section History.

Context `{MathUtils} `{Collaborators}.

(** The channels of the recorder and the row count each is created with. *)
Definition channel_rows : list (string * nat) :=
  [("torque_history", 12); ("force_history", 12); ("ref_wrench_history", 6);
   ("contacts_history", 4); ("active_feet_history", 4);
   ("swing_torque_history", 12); ("swing_force_history", 12);
   ("swing_trajectory", 12); ("foot_positions", 12);
   ("phase_history", 1); ("step_phase_history", 1)].

(** Same channels, same row counts. *)
Definition rows_kept (r r' : WooferRobot) : Prop :=
  ∀ key, np.nrows <$> data r' !! key = np.nrows <$> data r !! key.

(** The tick index does not go back, and the columns below it stay. *)
Definition past_kept (r r' : WooferRobot) : Prop :=
  i r ≤ i r' ∧
  ∀ key a col v, col < i r → data r !! key = Some a → np.column a col = Some v →
    ∃ a', data r' !! key = Some a' ∧ np.column a' col = Some v.

(** The capacity is the initial one plus whole chunks, and at most one
    chunk ahead of the tick index. *)
Definition slack (r : WooferRobot) : Prop :=
  is_Some (data r !! "torque_history") ∧
  ∃ chunks, shared_capacity (data r) (init_data_size + 1000 * chunks) ∧
            i r ≤ init_data_size + 1000 * chunks ≤ i r + 1000.

End History.

(** ** The stages of a tick *)

Section Stages.

Context `{MathUtils} `{Collaborators}.

(** The estimators, the planner and the swing controller return the
    values of [k], in this order, and leave the world [w4]. *)
Definition plans (sim : Sim) (r : WooferRobot) (w : World) (k : Tick) (w4 : World)
    : Prop :=
  ∃ w1 w2 w3,
    state_estimator_update sim w = (w1, inr (tick_state k)) ∧
    contact_estimator_update sim w1 = (w2, inr (tick_contacts k)) ∧
    gait_planner_update (tick_state k) (tick_contacts k) (t r)
        WOOFER_CONFIG GAIT_PLANNER_CONFIG w2
      = (w3, inr (tick_step_locations k, tick_p_step_locations k, p_ref k, rpy_ref k,
                  tick_active_feet k, tick_phase k, tick_step_phase k)) ∧
    swing_controller_update (tick_state k) (tick_step_phase k) (tick_step_locations k)
        (tick_p_step_locations k) (tick_active_feet k)
        WOOFER_CONFIG SWING_CONTROLLER_CONFIG w3
      = (w4, inr (tick_swing_torques k, tick_swing_forces k, tick_swing_trajectory k,
                  tick_foot_positions k)).

(** Moreover the state estimate has the five entries of [qp_state], and
    forward kinematics returns the feet locations of [k] and leaves the
    world [w5]. *)
Definition prepares (sim : Sim) (r : WooferRobot) (w : World) (k : Tick) (w5 : World)
    : Prop :=
  ∃ w4 p p_d q wq j,
    plans sim r w k w4 ∧
    tick_state k !! "p" = Some p ∧ tick_state k !! "p_d" = Some p_d ∧
    tick_state k !! "q" = Some q ∧ tick_state k !! "w" = Some wq ∧
    tick_state k !! "j" = Some j ∧
    qp_state k = (p, p_d, q, wq, j) ∧
    LegForwardKinematics q j w4 = (w5, inr (tick_feet_locations k)).

(** The stance solve of the tick, as called after [prepares]. *)
Definition stance_solve (r : WooferRobot) (k : Tick)
    : World → World * (exn + (list Q * list Q * list Q)) :=
  qp_controller_Update (qp_state k) (tick_feet_locations k) (tick_active_feet k)
    (p_ref k) (rpy_ref k) (foot_forces r) WOOFER_CONFIG QP_CONFIG.

(** The robot once the plan and the swing outputs are assigned. *)
Definition planned (r : WooferRobot) (k : Tick) : WooferRobot :=
  {| state := Some (tick_state k);
     contacts := Some (tick_contacts k);
     max_torques := max_torques r;
     max_forces := max_forces r;
     data := data r;
     dt := dt r;
     t := t r;
     i := i r;
     foot_forces := foot_forces r;
     phase := tick_phase k;
     step_phase := tick_step_phase k;
     step_locations := tick_step_locations k;
     p_step_locations := tick_p_step_locations k;
     swing_torques := tick_swing_torques k;
     swing_trajectory := tick_swing_trajectory k;
     foot_positions := tick_foot_positions k;
     active_feet := Some (tick_active_feet k);
     swing_forces := Some (tick_swing_forces k);
     feet_locations := feet_locations r;
     ref_wrench := ref_wrench r;
     torques := torques r |}.

(** ... and the feet locations. *)
Definition located (r : WooferRobot) (k : Tick) : WooferRobot :=
  set_feet_locations (Some (tick_feet_locations k)) (planned r k).

(** ... and the outputs of the stance solve. *)
Definition solved (r : WooferRobot) (k : Tick) : WooferRobot :=
  set_ref_wrench (Some (tick_ref_wrench k))
    (set_foot_forces (tick_foot_forces k) (located r k)).

End Stages.

(** ** Writing a row *)

Section Row.

Context `{MathUtils} `{Collaborators}.

(** The column writes of [log_data], one after the other. *)
Definition write_row (rows : list (string * list Q)) : M Store () :=
  for_ rows (λ kv, log_column kv.1 kv.2).

(** [v] can be assigned to a column of [n] rows: it has [n] entries, or
    one entry, which numpy repeats. *)
Definition fits (n : nat) (v : list Q) : Prop := length v = n ∨ length v = 1.

(** The value [kv.2] fits the channel [kv.1]. *)
Definition row_fit (kv : string * list Q) : Prop :=
  ∃ n, (kv.1, n) ∈ channel_rows ∧ fits n kv.2.

(** The row of a tick with values [k] and mixed torques [tau], in the
    order [log_data] writes it. *)
Definition tick_row (k : Tick) (tau : list Q) : list (string * list Q) :=
  [("torque_history", tau); ("force_history", tick_foot_forces k);
   ("ref_wrench_history", tick_ref_wrench k); ("contacts_history", tick_contacts k);
   ("active_feet_history", tick_active_feet k);
   ("swing_torque_history", tick_swing_torques k);
   ("swing_force_history", tick_swing_forces k);
   ("swing_trajectory", tick_swing_trajectory k);
   ("foot_positions", tick_foot_positions k);
   ("phase_history", [tick_phase k]); ("step_phase_history", [tick_step_phase k])].

(** Column [col] of channel [kv.1] of [d] holds [kv.2], repeated over the
    rows if it is a single value. *)
Definition holds (d : gmap string np.ndarray2) (col : nat) (kv : string * list Q)
    : Prop :=
  ∃ a c, d !! kv.1 = Some a ∧ np.broadcast_to (np.nrows a) kv.2 = inr c ∧
         np.column a col = Some c.

(** The robot as [log_data] leaves the attributes it updates itself:
    both trackers once more, the recorder checked for capacity. *)
Definition tracked (r : WooferRobot) (tq : list Q) : WooferRobot :=
  set_max_torques (RunningMax_Update (max_torques r) tq)
    (set_max_forces (RunningMax_Update (max_forces r) (foot_forces r))
       (set_data (checked r) r)).

End Row.

(** ** What a failed call leaves alone *)

Section Held.

Context `{MathUtils} (C : Collaborators).

(** Clock and recorder, the foot forces for the next stance solve, the
    reference wrench, the torques and both trackers are unchanged. *)
Definition held (r r' : WooferRobot) : Prop :=
  unlogged r r' ∧ foot_forces r' = foot_forces r ∧ ref_wrench r' = ref_wrench r ∧
  torques r' = torques r ∧ max_forces r' = max_forces r ∧
  max_torques r' = max_torques r.

(** [consulting] and [aborts] for a relation of one's choice. *)
Definition consulting_with (R : relation WooferRobot) {A}
    (m : M (@Store _ (spy C)) A) : Prop :=
  ∀ s, ∃ evs,
    (m s).1.2.2 = s.2.2 ++ evs ∧
    R s.1 (m s).1.1 ∧
    ∀ ev e, ev ∈ evs → raised ev = Some e → (m s).2 = inl e ∧ last evs = Some ev.

Definition aborts_with (R : relation WooferRobot) {A}
    (m : M (@Store _ (spy C)) A) : Prop :=
  ∀ s, ∃ evs,
    (m s).1.2.2 = s.2.2 ++ evs ∧
    ∀ ev e, ev ∈ evs → raised ev = Some e →
      (m s).2 = inl e ∧ R s.1 (m s).1.1 ∧ last evs = Some ev.

End Held.

(** ** [print_data], [save_logs] and [MakeWoofer] *)

(** The argument of a [%s]: a number, an array, or [None]. *)
Inductive Printed : Type :=
  | Number (x : Q)
  | Array (a : list Q)
  | PyNone.

(** One call of [print]: a format applied to its argument, or a string. *)
Inductive Line : Type :=
  | Formatted (fmt : string) (v : Printed)
  | Text (s : string).

Definition newline : string := String (Ascii.ascii_of_nat 10) EmptyString.

Section Debugging.

Context `{MathUtils} `{Collaborators}.

(** [RunningMax.CurrentMax], [rotations.quat2euler] and [np.savez] are not
    part of [WooferRobot.py]; the first reads a tracker, the other two are
    calls into the world like those of the collaborators. *)
Variable CurrentMax : RunningMaxT → list Q.
Variable quat2euler : list Q → World → World * (exn + list Q).
Variable savez : string → gmap string np.ndarray2 → World → World * (exn + ()).

(** [print_data] reads the robot and writes to the console: its store is
    the world and the lines printed so far. *)
Definition Console : Type := World * list Line.

(** [print(line)] *)
Definition print (line : Line) : M Console () := λ s, ((s.1, s.2 ++ [line]), inr ()).

(** A call into the world. *)
Definition consult {A} (f : World → World * (exn + A)) : M Console A :=
  λ s, (((f s.1).1, s.2), (f s.1).2).

(** The value of an option, or the exception its absence raises. *)
Definition or_raise {A} (e : exn) (o : option A) : exn + A :=
  match o with
  | Some x => inr x
  | None => inl e
  end.

Definition print_data (self : WooferRobot) : M Console () :=
  print (Formatted "Time: %s" (Number (t self)));;
  st ← lift (or_raise TypeError (state self));
  p ← lift (or_raise KeyError (st !! "p"));
  print (Formatted "Cartesian: %s" (Array p));;
  st ← lift (or_raise TypeError (state self));
  q ← lift (or_raise KeyError (st !! "q"));
  e ← consult (quat2euler q);
  print (Formatted "Euler angles: %s" (Array e));;
  print (Formatted "Max gen. torques: %s" (Array (CurrentMax (max_torques self))));;
  print (Formatted "Max forces: %s" (Array (CurrentMax (max_forces self))));;
  v ← lift (or_raise AttributeError (ref_wrench self));
  print (Formatted "Reference wrench: %s" (Array v));;
  v ← lift (or_raise AttributeError (feet_locations self));
  print (Formatted "feet locations: %s" (Array v));;
  print (Formatted "contacts: %s" (from_option Array PyNone (contacts self)));;
  print (Formatted "QP feet forces: %s" (Array (foot_forces self)));;
  v ← lift (or_raise AttributeError (torques self));
  print (Formatted "Joint torques: %s" (Array v));;
  print (Text newline).

(** The lines of a complete [print_data]. *)
Definition report (self : WooferRobot) (p e rw fl tq : list Q) : list Line :=
  [ Formatted "Time: %s" (Number (t self));
    Formatted "Cartesian: %s" (Array p);
    Formatted "Euler angles: %s" (Array e);
    Formatted "Max gen. torques: %s" (Array (CurrentMax (max_torques self)));
    Formatted "Max forces: %s" (Array (CurrentMax (max_forces self)));
    Formatted "Reference wrench: %s" (Array rw);
    Formatted "feet locations: %s" (Array fl);
    Formatted "contacts: %s" (from_option Array PyNone (contacts self));
    Formatted "QP feet forces: %s" (Array (foot_forces self));
    Formatted "Joint torques: %s" (Array tq);
    Text newline ].

Definition save_logs : M Store () :=
  self ← this;
  call (savez "woofer_numpy_log" (data self)).


End Debugging.

(** ** Collaborators that replay a tick

    The simulator snapshot is a whole [Tick]: the state estimator hands
    out its state and leaves the tick in the world, and every later
    collaborator returns the values the tick has for it. *)
Module Replay.

Definition replay {A} (f : Tick → A) (w : option Tick) : option Tick * (exn + A) :=
  match w with
  | Some k => (w, inr (f k))
  | None => (w, inl EstimationError)
  end.

Definition collaborators : Collaborators :=
  {| Sim := Tick;
     World := option Tick;
     RobotConfig := Q;
     GaitConfig := ();
     SwingConfig := ();
     QPConfig := ();
     WOOFER_CONFIG := 8%Q;
     GAIT_PLANNER_CONFIG := ();
     SWING_CONTROLLER_CONFIG := ();
     QP_CONFIG := ();
     MASS := λ m, m;
     state_estimator_update := λ k _, (Some k, inr (tick_state k));
     contact_estimator_update := λ k w, (w, inr (tick_contacts k));
     gait_planner_update := λ st cs t _ _,
       replay (λ k, (tick_step_locations k, tick_p_step_locations k, p_ref k, rpy_ref k,
                     tick_active_feet k, tick_phase k, tick_step_phase k));
     swing_controller_update := λ st sph sl psl af _ _,
       replay (λ k, (tick_swing_torques k, tick_swing_forces k, tick_swing_trajectory k,
                     tick_foot_positions k));
     LegForwardKinematics := λ q j, replay tick_feet_locations;
     qp_controller_Update := λ qs fl af p_ref rpy_ref prev _ _,
       replay (λ k, (qp_torques k, tick_foot_forces k, tick_ref_wrench k)) |}.

(** A fresh robot on these collaborators. *)
Definition robot0 : @WooferRobot running_max := @__init__ running_max collaborators 0.001.

(** [Trial.tick0] with another state estimate, contact vector, mask or
    stance torques. *)
Definition with_state (st : gmap string (list Q)) (k : Tick) : Tick :=
  {| tick_state := st;
     tick_contacts := tick_contacts k;
     tick_step_locations := tick_step_locations k;
     tick_p_step_locations := tick_p_step_locations k;
     p_ref := p_ref k;
     rpy_ref := rpy_ref k;
     tick_active_feet := tick_active_feet k;
     tick_phase := tick_phase k;
     tick_step_phase := tick_step_phase k;
     tick_swing_torques := tick_swing_torques k;
     tick_swing_forces := tick_swing_forces k;
     tick_swing_trajectory := tick_swing_trajectory k;
     tick_foot_positions := tick_foot_positions k;
     qp_state := qp_state k;
     tick_feet_locations := tick_feet_locations k;
     qp_torques := qp_torques k;
     tick_foot_forces := tick_foot_forces k;
     tick_ref_wrench := tick_ref_wrench k |}.

Definition with_contacts (cs : list Q) (k : Tick) : Tick :=
  {| tick_state := tick_state k;
     tick_contacts := cs;
     tick_step_locations := tick_step_locations k;
     tick_p_step_locations := tick_p_step_locations k;
     p_ref := p_ref k;
     rpy_ref := rpy_ref k;
     tick_active_feet := tick_active_feet k;
     tick_phase := tick_phase k;
     tick_step_phase := tick_step_phase k;
     tick_swing_torques := tick_swing_torques k;
     tick_swing_forces := tick_swing_forces k;
     tick_swing_trajectory := tick_swing_trajectory k;
     tick_foot_positions := tick_foot_positions k;
     qp_state := qp_state k;
     tick_feet_locations := tick_feet_locations k;
     qp_torques := qp_torques k;
     tick_foot_forces := tick_foot_forces k;
     tick_ref_wrench := tick_ref_wrench k |}.

Definition with_active_feet (af : list Q) (k : Tick) : Tick :=
  {| tick_state := tick_state k;
     tick_contacts := tick_contacts k;
     tick_step_locations := tick_step_locations k;
     tick_p_step_locations := tick_p_step_locations k;
     p_ref := p_ref k;
     rpy_ref := rpy_ref k;
     tick_active_feet := af;
     tick_phase := tick_phase k;
     tick_step_phase := tick_step_phase k;
     tick_swing_torques := tick_swing_torques k;
     tick_swing_forces := tick_swing_forces k;
     tick_swing_trajectory := tick_swing_trajectory k;
     tick_foot_positions := tick_foot_positions k;
     qp_state := qp_state k;
     tick_feet_locations := tick_feet_locations k;
     qp_torques := qp_torques k;
     tick_foot_forces := tick_foot_forces k;
     tick_ref_wrench := tick_ref_wrench k |}.

Definition with_qp_torques (qp : list Q) (k : Tick) : Tick :=
  {| tick_state := tick_state k;
     tick_contacts := tick_contacts k;
     tick_step_locations := tick_step_locations k;
     tick_p_step_locations := tick_p_step_locations k;
     p_ref := p_ref k;
     rpy_ref := rpy_ref k;
     tick_active_feet := tick_active_feet k;
     tick_phase := tick_phase k;
     tick_step_phase := tick_step_phase k;
     tick_swing_torques := tick_swing_torques k;
     tick_swing_forces := tick_swing_forces k;
     tick_swing_trajectory := tick_swing_trajectory k;
     tick_foot_positions := tick_foot_positions k;
     qp_state := qp_state k;
     tick_feet_locations := tick_feet_locations k;
     qp_torques := qp;
     tick_foot_forces := tick_foot_forces k;
     tick_ref_wrench := tick_ref_wrench k |}.

Definition with_qp_state (qs : list Q * list Q * list Q * list Q * list Q) (k : Tick)
    : Tick :=
  {| tick_state := tick_state k;
     tick_contacts := tick_contacts k;
     tick_step_locations := tick_step_locations k;
     tick_p_step_locations := tick_p_step_locations k;
     p_ref := p_ref k;
     rpy_ref := rpy_ref k;
     tick_active_feet := tick_active_feet k;
     tick_phase := tick_phase k;
     tick_step_phase := tick_step_phase k;
     tick_swing_torques := tick_swing_torques k;
     tick_swing_forces := tick_swing_forces k;
     tick_swing_trajectory := tick_swing_trajectory k;
     tick_foot_positions := tick_foot_positions k;
     qp_state := qs;
     tick_feet_locations := tick_feet_locations k;
     qp_torques := qp_torques k;
     tick_foot_forces := tick_foot_forces k;
     tick_ref_wrench := tick_ref_wrench k |}.

(** The values of a tick of the bench on [Trial.fallen], up to the stance
    solve. *)
Definition fallen0 : Tick :=
  with_qp_state ([0; 0; 0], np.zeros 3, [1; 0; 0; 0], np.zeros 3, np.zeros 12)%Q
    (with_state (Bench.state_of 0)
       (with_contacts [1; 1; 1; 1]%Q (with_active_feet [1; 1; 1; 1]%Q Trial.tick0))).

(** A state estimate without the linear velocity. *)
Definition no_velocity : Tick := with_state (delete "p_d" (Bench.state_of 0.32)) Trial.tick0.

(** A mask of three legs. *)
Definition three_legs : Tick := with_active_feet [1; 0; 1]%Q Trial.tick0.

(** Stance torques for two joints only. *)
Definition two_torques : Tick := with_qp_torques [5; 5]%Q Trial.tick0.

(** Contacts of five feet. *)
Definition five_contacts : Tick := with_contacts [1; 0; 1; 0; 1]%Q Trial.tick0.

End Replay.

(** ** Runs shown on the bench *)

Module Shown.

(** The bench after one and after two ticks on [Trial.trot]. *)
Definition tick1 := @step running_max Bench.collaborators Trial.trot (Trial.robot0, 0).
Definition tick2 := @step running_max Bench.collaborators Trial.trot tick1.1.

(** The torques of a tick on [Trial.trot]. *)
Definition tau0 : list Q := [5; 5; 5; 2; 2; 2; 5; 5; 5; 2; 2; 2]%Q.

(** A tracker read-out, Euler angles and a file system for the reports. *)
Definition current_max (m : @RunningMaxT running_max) : list Q := m.
Definition level (q : list Q) (n : nat) : nat * (exn + list Q) := (n, inr (np.zeros 3)).
Definition written_file (name : string) (d : gmap string np.ndarray2) (n : nat)
    : nat * (exn + ()) := (n, inr ()).

End Shown.

(** * Properties *)

Section MonadFacts.
Context {S : Type}.

Lemma bind_inr {A B} (m : M S A) (k : A → M S B) s s' b :
  (m ≫= k) s = (s', inr b) → ∃ a s1, m s = (s1, inr a) ∧ k a s1 = (s', inr b).
Proof.
  unfold mbind, M_bind. destruct (m s) as [s1 [e|a]]; [discriminate|]. eauto.
Qed.

Lemma bind_inl {A B} (m : M S A) (k : A → M S B) s s' e :
  (m ≫= k) s = (s', inl e) →
  m s = (s', inl e) ∨ ∃ a s1, m s = (s1, inr a) ∧ k a s1 = (s', inl e).
Proof.
  unfold mbind, M_bind. destruct (m s) as [s1 [e'|a]]; [left; congruence|]. eauto.
Qed.

Lemma bind_eq_inr {A B} (m : M S A) (k : A → M S B) s s1 a :
  m s = (s1, inr a) → (m ≫= k) s = k a s1.
Proof. unfold mbind, M_bind. by intros ->. Qed.

Lemma bind_eq_inl {A B} (m : M S A) (k : A → M S B) s s1 e :
  m s = (s1, inl e) → (m ≫= k) s = (s1, inl e).
Proof. unfold mbind, M_bind. by intros ->. Qed.
End MonadFacts.

Section Primitives.

Context `{MathUtils} `{Collaborators}.

Global Instance clock_preorder : PreOrder clock.
Proof.
  split; [by intros r|]. intros r1 r2 r3 (?&?&?) (?&?&?). unfold clock. split_and!; congruence.
Qed.

Global Instance unlogged_preorder : PreOrder unlogged.
Proof.
  split; [by intros r|]. intros r1 r2 r3 [? ?] [? ?]. split; [by etrans|congruence].
Qed.

Lemma respects_bind {A B} R `{!Transitive R} (m : M Store A) (k : A → M Store B) :
  respects R m → (∀ a, respects R (k a)) → respects R (m ≫= k).
Proof.
  intros Hm Hk s. unfold mbind, M_bind. specialize (Hm s).
  destruct (m s) as [s1 [e|a]]; [done|]. etrans; [exact Hm|]. apply Hk.
Qed.

Lemma respects_ret {A} R `{!Reflexive R} (x : A) : respects R (mret x : M Store A).
Proof. by intros s. Qed.
Lemma respects_this R `{!Reflexive R} : respects R this.
Proof. by intros s. Qed.
Lemma respects_lift {A} R `{!Reflexive R} (x : exn + A) : respects R (lift x).
Proof. by intros s. Qed.
Lemma respects_call {A} R `{!Reflexive R} (f : World → World * (exn + A)) :
  respects R (call f).
Proof. by intros s. Qed.
Lemma respects_getattr {A} R `{!Reflexive R} (o : option A) : respects R (getattr o).
Proof. intros s. by destruct o. Qed.
Lemma respects_not_None {A} R `{!Reflexive R} (o : option A) : respects R (not_None o).
Proof. intros s. by destruct o. Qed.
Lemma respects_getitem {V} R `{!Reflexive R} (d : gmap string V) key :
  respects R (getitem d key).
Proof. intros s. unfold getitem. by destruct (d !! key). Qed.
Lemma respects_assign R (f : WooferRobot → WooferRobot) :
  (∀ r, R r (f r)) → respects R (assign f).
Proof. intros Hf s. apply Hf. Qed.
Lemma respects_for_ {A} R `{!PreOrder R} (xs : list A) body :
  (∀ x, respects R (body x)) → respects R (for_ xs body).
Proof.
  intros Hb. induction xs as [|x xs IH]; simpl.
  - intros s. simpl. reflexivity.
  - apply respects_bind; [apply _|apply Hb|done].
Qed.

Lemma local_bind {A B} (m : M Store A) (k : A → M Store B) :
  local m → (∀ a, local (k a)) → local (m ≫= k).
Proof.
  intros Hm Hk s. unfold mbind, M_bind. specialize (Hm s).
  destruct (m s) as [s1 [e|a]]; [done|]. rewrite Hk. done.
Qed.
Lemma local_ret {A} (x : A) : local (mret x : M Store A).
Proof. by intros s. Qed.
Lemma local_this : local this.
Proof. by intros s. Qed.
Lemma local_lift {A} (x : exn + A) : local (lift x).
Proof. by intros s. Qed.
Lemma local_getattr {A} (o : option A) : local (getattr o).
Proof. intros s. by destruct o. Qed.
Lemma local_not_None {A} (o : option A) : local (not_None o).
Proof. intros s. by destruct o. Qed.
Lemma local_getitem {V} (d : gmap string V) key : local (getitem d key).
Proof. intros s. unfold getitem. by destruct (d !! key). Qed.
Lemma local_assign (f : WooferRobot → WooferRobot) : local (assign f).
Proof. by intros s. Qed.
Lemma local_for_ {A} (xs : list A) body : (∀ x, local (body x)) → local (for_ xs body).
Proof.
  intros Hb. induction xs as [|x xs IH]; simpl.
  - apply local_ret.
  - by apply local_bind.
Qed.

End Primitives.

Ltac split_tuple :=
  repeat match goal with
         | |- context [let '(_, _) := ?x in _] => destruct x
         end.

Ltac local_step :=
  first
    [ apply local_bind; [|intros ?; split_tuple]
    | apply local_ret | apply local_this | apply local_lift | apply local_getattr
    | apply local_not_None | apply local_getitem | apply local_assign
    | apply local_for_; intros ?
    | case_bool_decide ].

Ltac respects_step :=
  first
    [ apply respects_bind; [apply _| |intros ?; split_tuple]
    | apply respects_ret; apply _ | apply respects_this; apply _
    | apply respects_lift; apply _ | apply respects_call; apply _
    | apply respects_getattr; apply _
    | apply respects_not_None; apply _ | apply respects_getitem; apply _
    | apply respects_assign; intros ?; by repeat split
    | apply respects_for_; [apply _|intros ?]
    | case_bool_decide ].

Ltac norm H :=
  cbn [fst snd state contacts max_torques max_forces data dt t i foot_forces phase
       step_phase step_locations p_step_locations swing_torques swing_trajectory
       foot_positions active_feet swing_forces feet_locations ref_wrench torques
       set_state set_contacts set_max_torques set_max_forces set_data set_t set_i
       set_foot_forces set_phase set_step_phase set_step_locations
       set_p_step_locations set_swing_torques set_swing_trajectory
       set_foot_positions set_active_feet set_swing_forces set_feet_locations
       set_ref_wrench set_torques] in H.

Ltac prim_red H :=
  cbv [this assign call lift getattr not_None getitem raise mret M_ret] in H;
  norm H;
  repeat match type of H with
         | context [?f ?w] =>
             lazymatch type of (f w) with
             | (World * (exn + _))%type =>
                 let w1 := fresh "w" in let o := fresh "o" in let E := fresh "E" in
                 destruct (f w) as [w1 o] eqn:E; cbn [fst snd] in H
             end
         end;
  repeat match type of H with
         | context [match ?x with _ => _ end] => destruct x eqn:?; try discriminate
         end.

Ltac split_tuple_in H :=
  repeat match type of H with
         | context [let '(_, _) := ?x in _] => destruct x
         end.

(** [unbind H s1 a]: [H : m s = (s1, inr a)] for variables [s1] and [a];
    the successful run of [m] is taken apart and [s1], [a] are replaced
    by what the run produces. *)
Ltac unbind H s1 a :=
  lazymatch type of H with
  | mbind _ _ _ = _ =>
      let a' := fresh "a" in let s' := fresh "s" in let H1 := fresh "H" in
      apply bind_inr in H as (a' & s' & H1 & H);
      unbind H1 s' a'; split_tuple_in H; norm H; unbind H s1 a
  | log_data _ = _ => idtac
  | _ =>
      prim_red H;
      let Hs := fresh in let Ha := fresh "Hv" in
      apply pair_equal_spec in H as [Hs Ha]; subst s1;
      lazymatch type of Ha with
      | inr _ = inr _ => apply (inj inr) in Ha; try subst a
      | ?o = inr _ => try subst o
      end
  end.

(** The same for a run whose result is not a variable: the last
    statement is left in [H]. *)
Ltac inv_run H :=
  lazymatch type of H with
  | mbind _ _ _ = _ =>
      let a' := fresh "a" in let s' := fresh "s" in let H1 := fresh "H" in
      apply bind_inr in H as (a' & s' & H1 & H);
      unbind H1 s' a'; split_tuple_in H; norm H; inv_run H
  | _ => idtac
  end.

Section Recorder.

Context `{MathUtils} `{Collaborators}.

Lemma log_column_local key v : local (log_column key v).
Proof. unfold log_column. repeat local_step. Qed.
Lemma log_scalar_local key x : local (log_scalar key x).
Proof. unfold log_scalar. repeat local_step. Qed.

Lemma log_data_local : local log_data.
Proof.
  unfold log_data.
  repeat first [apply log_column_local | apply log_scalar_local | local_step].
Qed.

Lemma finish_tick_local : local finish_tick.
Proof. unfold finish_tick. repeat first [apply log_data_local | local_step]. Qed.


Lemma reaches_log_bind {A} (m : M Store A) (k : A → M Store (list Q)) :
  respects unlogged m → (∀ a, reaches_log (k a)) → reaches_log (m ≫= k).
Proof.
  intros Hm Hk s. unfold mbind, M_bind. specialize (Hm s).
  destruct (m s) as [s1 [e|a]]; [left; eauto|].
  destruct (Hk a s1) as [(e & ? & ?)|(s2 & ? & ?)].
  - left. exists e. split; [done|]. by etrans.
  - right. exists s2. split; [by etrans|done].
Qed.

Lemma finish_tick_reaches_log : reaches_log finish_tick.
Proof. intros s. right. by exists s. Qed.

Lemma step_reaches_log sim : reaches_log (step sim).
Proof.
  unfold step.
  repeat first
    [ apply finish_tick_reaches_log
    | apply reaches_log_bind; [solve [repeat respects_step]|intros ?; split_tuple] ].
Qed.


Lemma set_data_data r : set_data (data r) r = r.
Proof. by destruct r. Qed.

Lemma append_zeros a :
  np.append_axis1 a (np.zeros2 (np.shape0 a) 1000) = inr (grow a).
Proof. unfold np.append_axis1, np.shape0. simpl. by rewrite decide_True. Qed.

Lemma grow_key_is_Some d key k :
  is_Some (grow_key d key !! k) ↔ is_Some (d !! k).
Proof.
  unfold grow_key. destruct (d !! key) as [a|] eqn:E; [|done].
  destruct (decide (key = k)) as [->|].
  - rewrite lookup_insert_eq, E. split; eauto.
  - by rewrite lookup_insert_ne.
Qed.

Lemma grow_loop l r w :
  (∀ key, key ∈ l → is_Some (data r !! key)) →
  for_ l (λ key,
       self ← this;
       a ← getitem (data self) key;
       a' ← lift (np.append_axis1 a (np.zeros2 (np.shape0 a) 1000));
       assign (set_data (<[key := a']> (data self)))) (r, w)
  = ((set_data (foldl grow_key (data r) l) r, w), inr ()).
Proof.
  revert r. induction l as [|key l IH]; intros r Hl.
  - simpl. by rewrite set_data_data.
  - destruct (Hl key) as [a Ha]; [left|].
    cbn [for_ foldl].
    erewrite bind_eq_inr; last first.
    { erewrite bind_eq_inr by reflexivity. cbn [fst].
      erewrite bind_eq_inr by (unfold getitem; by rewrite Ha).
      erewrite bind_eq_inr by (unfold lift; by rewrite append_zeros).
      reflexivity. }
    cbn [fst snd]. rewrite IH.
    + cbn [data set_data].
      replace (grow_key (data r) key) with (<[key := grow a]> (data r)); [done|].
      unfold grow_key. by rewrite Ha.
    + intros k Hk. cbn [data set_data].
      assert (is_Some (grow_key (data r) key !! k)) as Hs.
      { apply grow_key_is_Some, Hl. by right. }
      unfold grow_key in Hs. by rewrite Ha in Hs.
Qed.

Lemma foldl_grow_key_lookup l d k :
  NoDup l →
  foldl grow_key d l !! k = if decide (k ∈ l) then grow <$> d !! k else d !! k.
Proof.
  revert d. induction l as [|key l IH]; intros d Hnd.
  - cbn [foldl]. case_decide as Hk; [|done]. by apply elem_of_nil in Hk.
  - apply NoDup_cons in Hnd as [Hkey Hnd]. cbn [foldl]. rewrite IH by done.
    unfold grow_key. destruct (decide (k = key)) as [->|Hne].
    + rewrite decide_False by done. rewrite decide_True by left.
      destruct (d !! key) as [a|] eqn:E; [by rewrite lookup_insert_eq|by rewrite E].
    + assert ((match d !! key with Some a => <[key:=grow a]> d | None => d end) !! k
              = d !! k) as ->.
      { destruct (d !! key); [by rewrite lookup_insert_ne|done]. }
      destruct (decide (k ∈ l)) as [Hl|Hl].
      * rewrite decide_True; [done|by right].
      * rewrite decide_False; [done|]. by intros [?|?]%elem_of_cons.
Qed.

Lemma grow_all d : foldl grow_key d (keys d) = grow <$> d.
Proof.
  apply map_eq. intros k. rewrite lookup_fmap, foldl_grow_key_lookup.
  - case_decide as Hk; [done|]. destruct (d !! k) as [a|] eqn:E; [|done].
    exfalso. apply Hk. unfold keys. apply list_elem_of_fmap.
    exists (k, a). split; [done|]. by apply elem_of_map_to_list.
  - apply NoDup_fst_map_to_list.
Qed.

Lemma keys_is_Some (d : gmap string np.ndarray2) key : key ∈ keys d → is_Some (d !! key).
Proof.
  unfold keys. intros ([k a] & -> & Hin)%list_elem_of_fmap.
  apply elem_of_map_to_list in Hin. eauto.
Qed.

Lemma setitem_column_inr a k v a' :
  np.setitem_column a k v = inr a' →
  k < np.shape1 a ∧
  ∃ c, np.broadcast_to (np.nrows a) v = inr c ∧
       a' = np.mk2 (np.nrows a) (<[k := c]> (np.columns a)).
Proof.
  unfold np.setitem_column. case_decide; [|done].
  destruct (np.broadcast_to (np.nrows a) v) as [e|c]; [done|].
  intros [= <-]. eauto.
Qed.

Lemma setitem_column_scalar_eq a k x :
  np.setitem_column_scalar a k x = np.setitem_column a k [x].
Proof.
  unfold np.setitem_column_scalar, np.setitem_column, np.broadcast_to.
  case_decide; [|done]. case_decide as Hn; [|done].
  by rewrite <- Hn.
Qed.

Lemma log_data_inr r w rl wl :
  log_data (r, w) = ((rl, wl), inr ()) →
  ∃ tq rw cs af swf,
    torques r = Some tq ∧ ref_wrench r = Some rw ∧ contacts r = Some cs ∧
    active_feet r = Some af ∧ swing_forces r = Some swf ∧
    is_Some (data r !! "torque_history") ∧
    wl = w ∧
    rl = set_data (data rl)
           (set_max_torques (RunningMax_Update (max_torques r) tq)
              (set_max_forces (RunningMax_Update (max_forces r) (foot_forces r)) r)) ∧
    Forall (λ kv, written (checked r) (data rl) (i r) kv.1 kv.2)
           (log_row r tq rw cs af swf) ∧
    ∀ key, key ∉ (log_row r tq rw cs af swf).*1 → data rl !! key = checked r !! key.
Proof.
  intros Hs. unfold log_data in Hs.
  apply bind_inr in Hs as (self & s0 & H0' & Hs). unbind H0' s0 self.
  apply bind_inr in Hs as (th & s0 & Hth & Hs). prim_red Hth.
  injection Hth as <- <-. norm Hs.
  apply bind_inr in Hs as ([] & s1 & Hg & Hs).
  assert (s1 = (set_data (checked r) r, w)) as ->.
  { unfold checked.
    match goal with Hth : data r !! "torque_history" = Some _ |- _ => rewrite Hth end.
    case_bool_decide.
    - rewrite grow_loop, grow_all in Hg by apply keys_is_Some. congruence.
    - cbv [mret M_ret] in Hg. rewrite set_data_data. congruence. }
  clear Hg. set (d1 := checked r) in *. clearbody d1.
  unfold log_column, log_scalar in Hs.
  inv_run Hs.
  injection Hs as <- <-.
  repeat match goal with
         | Hl : <[_ := _]> _ !! _ = Some _ |- _ => rewrite lookup_insert_ne in Hl by done
         | Hw : np.setitem_column_scalar _ _ _ = inr _ |- _ =>
             rewrite setitem_column_scalar_eq in Hw
         | Hw : np.setitem_column _ _ _ = inr _ |- _ =>
             apply setitem_column_inr in Hw as (? & ? & ? & ->)
         end.
  simplify_eq.
  eexists _, _, _, _, _. split_and!; try done; [eauto|..].
  - unfold log_row. cbn [data set_data].
    repeat (apply Forall_cons; split;
            [eexists _, _; split_and!; [eassumption|done|eassumption|by simplify_map_eq]|]).
    apply Forall_nil_2.
  - intros key Hkey. cbn [data set_data].
    unfold log_row in Hkey. cbn [fmap list_fmap fst] in Hkey.
    repeat (rewrite lookup_insert_ne; [|intros <-; apply Hkey; set_solver]).
    done.
Qed.
End Recorder.

Section Tick.

Context `{MathUtils} `{Collaborators}.

(** A successful tick, taken apart. *)
Lemma step_inr sim r w r' w' tau :
  step sim (r, w) = ((r', w'), inr tau) →
  ∃ k mask12 rl,
    consults sim r w k w' ∧
    mixed k mask12 tau ∧
    log_data (before_log r k tau, w') = ((rl, w'), inr ()) ∧
    r' = set_i (i rl + 1) (set_t (t rl + dt rl) rl).
Proof.
  intros Hs. unfold step in Hs. inv_run Hs. simplify_eq.
  match goal with
  | Hl : log_data (?r0, ?w5) = (?s, _) |- _ =>
      pose proof (log_data_local (r0, w5)) as Hw; rewrite Hl in Hw;
      destruct s as [rl wl]; cbn [fst snd] in Hw, Hs; subst wl
  end.
  match goal with
  | Hl : log_data _ = (_, inr ?u) |- _ => destruct u
  end.
  prim_red Hs. simplify_eq.
  match goal with
  | Hl : log_data _ = _, Ht : torques rl = Some _ |- _ =>
      destruct (log_data_inr _ _ _ _ Hl) as (? & ? & ? & ? & ? & Htq & _ & _ & _ & _ & _ & _ & Hrl & _ & _);
      rewrite Hrl in Ht; cbn in Htq, Ht; simplify_eq
  end.
  match goal with
  | E1 : state_estimator_update _ _ = (_, inr ?st),
    E2 : contact_estimator_update _ _ = (_, inr ?cs),
    E3 : gait_planner_update _ _ _ _ _ _ = (_, inr (?sl, ?psl, ?pr, ?rr, ?af, ?ph, ?sph)),
    E4 : swing_controller_update _ _ _ _ _ _ _ _ = (_, inr (?swt, ?swf, ?swj, ?fp)),
    E5 : LegForwardKinematics _ _ _ = (_, inr ?fl),
    E6 : qp_controller_Update ?qs _ _ _ _ _ _ _ _ = (_, inr (?qp, ?ff, ?rw)) |- _ =>
      exists {| tick_state := st; tick_contacts := cs; tick_step_locations := sl;
                tick_p_step_locations := psl; p_ref := pr; rpy_ref := rr;
                tick_active_feet := af; tick_phase := ph; tick_step_phase := sph;
                tick_swing_torques := swt; tick_swing_forces := swf;
                tick_swing_trajectory := swj; tick_foot_positions := fp;
                qp_state := qs; tick_feet_locations := fl; qp_torques := qp;
                tick_foot_forces := ff; tick_ref_wrench := rw |}
  end.
  eexists _, rl. split_and!.
  - unfold consults. cbn. eexists _, _, _, _, _, _, _, _, _, _. split_and!; by eauto.
  - unfold mixed. cbn [tick_active_feet qp_torques tick_swing_torques].
    eexists _, _. split_and!; eassumption.
  - exact H1.
  - done.
Qed.

(** What a successful tick leaves behind. *)
Lemma tick_effect sim r w r' w' tau :
  step sim (r, w) = ((r', w'), inr tau) →
  ∃ k mask12,
    consults sim r w k w' ∧
    mixed k mask12 tau ∧
    is_Some (data r !! "torque_history") ∧
    r' = set_i (i r + 1) (set_t (t r + dt r)%Q (set_data (data r')
           (set_max_torques
              (RunningMax_Update (RunningMax_Update (max_torques r) tau) tau)
              (set_max_forces
                 (RunningMax_Update
                    (RunningMax_Update (max_forces r) (tick_foot_forces k))
                    (tick_foot_forces k))
                 (assigned r k tau))))) ∧
    Forall (λ kv, written (checked r) (data r') (i r) kv.1 kv.2)
           (log_row (assigned r k tau) tau (tick_ref_wrench k) (tick_contacts k)
                    (tick_active_feet k) (tick_swing_forces k)) ∧
    ∀ key, key ∉ (log_row (assigned r k tau) tau (tick_ref_wrench k) (tick_contacts k)
                    (tick_active_feet k) (tick_swing_forces k)).*1 →
           data r' !! key = checked r !! key.
Proof.
  intros (k & mask12 & rl & Hk & Hm & Hl & ->)%step_inr.
  apply log_data_inr in Hl
    as (tq & rw & cs & af & swf & Htq & Hrw & Hcs & Haf & Hswf & Hth & _ & Hrl & Hw & Ho).
  cbn in Htq, Hrw, Hcs, Haf, Hswf, Hth. simplify_eq.
  exists k, mask12. split_and!; try done.
  rewrite Hrl at 1 2 3 4. reflexivity.
Qed.

End Tick.

Section Mixing.

Context `{MathUtils} `{Collaborators}.

(** The values of a tick are determined by the robot, the world and the
    snapshot. *)
Lemma consults_inj sim r w k1 w1 k2 w2 :
  consults sim r w k1 w1 → consults sim r w k2 w2 → k1 = k2 ∧ w1 = w2.
Proof.
  intros (?&?&?&?&?&?&?&?&?&?&E1&E2&E3&E4&Ep&Epd&Eq&Ew&Ej&Eqs&E5&E6)
         (?&?&?&?&?&?&?&?&?&?&F1&F2&F3&F4&Fp&Fpd&Fq&Fw&Fj&Fqs&F5&F6).
  destruct k1, k2; cbn in *.
  rewrite E1 in F1. simplify_eq. rewrite E2 in F2. simplify_eq.
  rewrite E3 in F3. simplify_eq. rewrite E4 in F4. simplify_eq.
  rewrite E5 in F5. simplify_eq. rewrite E6 in F6. by simplify_eq.
Qed.

Lemma take_legs (af mask12 : list Q) :
  np.take af [0; 0; 0; 1; 1; 1; 2; 2; 2; 3; 3; 3] = inr mask12 →
  ∃ a0 a1 a2 a3 rest,
    af = a0 :: a1 :: a2 :: a3 :: rest ∧
    mask12 = [a0; a0; a0; a1; a1; a1; a2; a2; a2; a3; a3; a3].
Proof.
  destruct af as [|a0 [|a1 [|a2 [|a3 rest]]]]; cbn; try discriminate.
  intros [= <-]. by eexists _, _, _, _, _.
Qed.




End Mixing.

Section Recording.

Context `{MathUtils} `{Collaborators}.

Lemma broadcast2_length f xs ys zs :
  np.broadcast2 f xs ys = inr zs → length xs = 12 → length zs = 12.
Proof.
  unfold np.broadcast2. intros Hb Hxs. case_decide as Hl.
  - simplify_eq. rewrite length_zip_with. lia.
  - destruct xs as [|x [|]]; [done|done|]. destruct ys as [|y [|]]; [done| |done].
    simplify_eq. by rewrite length_map.
Qed.

Lemma mixed_length k mask12 tau : mixed k mask12 tau → length tau = 12.
Proof.
  intros (x & y & (?&?&?&?&?&_&->)%take_legs & Hx & _ & Hxy).
  apply broadcast2_length in Hx; [|done]. by apply broadcast2_length in Hxy.
Qed.

Lemma broadcast_to_12 n v c :
  np.broadcast_to n v = inr c → length v = 12 → c = v.
Proof.
  unfold np.broadcast_to. case_decide; [congruence|].
  by destruct v as [|? [|]].
Qed.

Lemma written_column d d' col key v :
  written d d' col key v → length v = 12 →
  ∃ a, d' !! key = Some a ∧ np.column a col = Some v.
Proof.
  intros (a & c & _ & Hcol & Hc & Hd) Hv. apply broadcast_to_12 in Hc as ->; [|done].
  eexists. split; [done|]. unfold np.column. cbn. by apply list_lookup_insert_eq.
Qed.

(** Every successful tick updates each tracker twice with the same
    values: once in [step], once more in [log_data]. *)
Lemma trackers_after_tick sim r w r' w' tau :
  step sim (r, w) = ((r', w'), inr tau) →
  max_forces r'
    = RunningMax_Update (RunningMax_Update (max_forces r) (foot_forces r')) (foot_forces r') ∧
  max_torques r'
    = RunningMax_Update (RunningMax_Update (max_torques r) tau) tau.
Proof.
  intros (k & mask12 & _ & _ & _ & Hr & _)%tick_effect.
  assert (foot_forces r' = tick_foot_forces k) as -> by (by rewrite Hr).
  split; by rewrite Hr.
Qed.

End Recording.

(** With the running maximum of the spec a second update with the same
    values changes nothing. *)
Lemma running_max_idempotent (m : @RunningMaxT running_max) v :
  Forall2 Qeq (@RunningMax_Update running_max (@RunningMax_Update running_max m v) v)
              (@RunningMax_Update running_max m v).
Proof.
  cbn. revert v. induction m as [|x m IH]; intros [|y v]; cbn; try constructor.
  - rewrite <- Q.max_assoc, Q.max_id. reflexivity.
  - apply IH.
Qed.


Section Growth.

Context `{MathUtils} `{Collaborators}.

Lemma grow_column a col :
  np.column (grow a) col
  = if decide (col < np.shape1 a) then np.column a col
    else if decide (col < np.shape1 a + 1000) then Some (np.zeros (np.nrows a))
    else None.
Proof.
  unfold np.column, grow, np.shape1. cbn [np.columns np.nrows]. case_decide.
  - by apply lookup_app_l.
  - rewrite lookup_app_r by lia. case_decide.
    + apply lookup_replicate_2. lia.
    + apply lookup_ge_None_2. rewrite length_replicate. lia.
Qed.

Lemma checked_full r th :
  data r !! "torque_history" = Some th → np.shape1 th ≤ i r →
  checked r = grow <$> data r.
Proof.
  intros Hth Hi. unfold checked. rewrite Hth. rewrite bool_decide_eq_true_2; [done|lia].
Qed.

End Growth.

Section Clock.

Context `{MathUtils} `{Collaborators}.

Lemma finish_tick_run s :
  finish_tick s
  = match log_data s with
    | (sl, inl e) => (sl, inl e)
    | (sl, inr _) =>
        ((set_i (i sl.1 + 1) (set_t (t sl.1 + dt sl.1)%Q sl.1), sl.2),
         match torques sl.1 with
         | Some tq => inr tq
         | None => inl AttributeError
         end)
    end.
Proof.
  unfold finish_tick. unfold mbind at 1, M_bind at 1.
  destruct (log_data s) as [sl [e|[]]]; [done|].
  cbv [mbind M_bind this assign getattr mret M_ret raise lift].
  cbn [fst snd torques set_i set_t]. by destruct (torques sl.1).
Qed.



End Clock.

Section Bounds.

Context `{MathUtils} `{Collaborators}.

Global Instance shape_kept_preorder : PreOrder shape_kept.
Proof.
  split; [by intros r|]. intros r1 r2 r3 [Hi Hd] [Hi' Hd']. split; [congruence|].
  intros key. by rewrite Hd', Hd.
Qed.

Lemma log_column_run key v r w :
  log_column key v (r, w)
  = match data r !! key with
    | None => ((r, w), inl KeyError)
    | Some a =>
        match np.setitem_column a (i r) v with
        | inl e => ((r, w), inl e)
        | inr a' => ((set_data (<[key := a']> (data r)) r, w), inr ())
        end
    end.
Proof.
  unfold log_column. cbv [mbind M_bind this getitem lift assign mret M_ret raise].
  cbn [fst snd]. destruct (data r !! key) as [a|]; [|done].
  by destruct (np.setitem_column a (i r) v).
Qed.

Lemma log_scalar_run key x r w : log_scalar key x (r, w) = log_column key [x] (r, w).
Proof.
  rewrite log_column_run. unfold log_scalar.
  cbv [mbind M_bind this getitem lift assign mret M_ret raise].
  cbn [fst snd]. destruct (data r !! key) as [a|]; [|done].
  rewrite setitem_column_scalar_eq. by destruct (np.setitem_column a (i r) [x]).
Qed.

Lemma setitem_column_shape a k v a' :
  np.setitem_column a k v = inr a' → np.shape1 a' = np.shape1 a.
Proof.
  intros (_ & c & _ & ->)%setitem_column_inr. unfold np.shape1. cbn.
  by rewrite length_insert.
Qed.

Lemma log_column_shape key v : respects shape_kept (log_column key v).
Proof.
  intros [r w]. rewrite log_column_run. cbn [fst].
  destruct (data r !! key) as [a|] eqn:Ea; [|done].
  destruct (np.setitem_column a (i r) v) as [e|a'] eqn:Es; [done|].
  split; [done|]. intros key'. cbn [fst data set_data].
  destruct (decide (key = key')) as [<-|].
  - rewrite lookup_insert_eq, Ea. cbn. f_equal. by eapply setitem_column_shape.
  - by rewrite lookup_insert_ne.
Qed.

Lemma log_scalar_shape key x : respects shape_kept (log_scalar key x).
Proof. intros [r w]. rewrite log_scalar_run. apply log_column_shape. Qed.

Lemma room_shape_kept r r' : shape_kept r r' → room r → room r'.
Proof.
  intros [Hi Hd] [[th Hth] (cap & Hcap & Hlt)]. split.
  - specialize (Hd "torque_history"). rewrite Hth in Hd.
    destruct (data r' !! "torque_history"); [eauto|done].
  - exists cap. split; [|lia]. intros key a' Ha'.
    specialize (Hd key). rewrite Ha' in Hd.
    destruct (data r !! key) as [a|] eqn:Ea; [|done].
    cbn in Hd. simplify_eq. rewrite Hd. by eapply Hcap.
Qed.

Lemma in_bounds_bind {A B} (m : M Store A) (k : A → M Store B) :
  respects shape_kept m → in_bounds m → (∀ a, in_bounds (k a)) → in_bounds (m ≫= k).
Proof.
  intros Hr Hm Hk s Hroom. unfold mbind, M_bind.
  specialize (Hr s). specialize (Hm s Hroom).
  destruct (m s) as [s1 [e|a]].
  - cbn in *. congruence.
  - apply Hk. by eapply room_shape_kept.
Qed.

Lemma in_bounds_this : in_bounds this.
Proof. by intros s _. Qed.
Lemma in_bounds_assign f : in_bounds (assign f).
Proof. by intros s _. Qed.
Lemma in_bounds_getattr {A} (o : option A) : in_bounds (getattr o).
Proof. intros s _. by destruct o. Qed.
Lemma in_bounds_not_None {A} (o : option A) : in_bounds (not_None o).
Proof. intros s _. by destruct o. Qed.

Lemma broadcast_to_no_index_error n v : np.broadcast_to n v ≠ inl IndexError.
Proof. unfold np.broadcast_to. case_decide; [done|]. by destruct v as [|? [|]]. Qed.

Lemma log_column_in_bounds key v : in_bounds (log_column key v).
Proof.
  intros [r w] [_ (cap & Hcap & Hlt)]. rewrite log_column_run. cbn [fst] in *.
  destruct (data r !! key) as [a|] eqn:Ea; [|done].
  unfold np.setitem_column. rewrite decide_True by (erewrite Hcap; done).
  pose proof (broadcast_to_no_index_error (np.nrows a) v).
  destruct (np.broadcast_to (np.nrows a) v) as [[]|]; done.
Qed.

Lemma log_scalar_in_bounds key x : in_bounds (log_scalar key x).
Proof. intros [r w] ?. rewrite log_scalar_run. by apply log_column_in_bounds. Qed.

End Bounds.

Ltac shape_step :=
  first
    [ apply log_column_shape | apply log_scalar_shape
    | apply respects_bind; [apply _| |intros ?; split_tuple]
    | apply respects_this; apply _
    | apply respects_getattr; apply _
    | apply respects_not_None; apply _
    | apply respects_assign; intros ?; by split ].

Ltac in_bounds_step :=
  first
    [ apply log_column_in_bounds | apply log_scalar_in_bounds
    | apply in_bounds_bind; [solve [repeat shape_step]| |intros ?; split_tuple]
    | apply in_bounds_this | apply in_bounds_assign
    | apply in_bounds_getattr | apply in_bounds_not_None ].

Section Invariant.

Context `{MathUtils} `{Collaborators}.

Lemma shared_capacity_grow d cap :
  shared_capacity d cap → shared_capacity (grow <$> d) (cap + 1000).
Proof.
  intros Hd key a'. rewrite lookup_fmap. destruct (d !! key) as [a|] eqn:Ea; [|done].
  intros [= <-]. unfold np.shape1, grow. cbn [np.columns].
  rewrite length_app, length_replicate. f_equal. by eapply Hd.
Qed.

(** After the capacity check of [log_data] there is room for the row. *)
Lemma checked_room r : recorder_ok r → room (set_data (checked r) r).
Proof.
  intros [[th Hth] (cap & Hcap & Hle)]. unfold checked. rewrite Hth.
  pose proof (Hcap _ _ Hth) as Hcapth. case_bool_decide as Hfull.
  - split; cbn [data set_data i].
    + rewrite lookup_fmap, Hth. cbn. eauto.
    + exists (cap + 1000). split; [by apply shared_capacity_grow|lia].
  - split; cbn [data set_data i]; [eauto|]. exists cap. split; [done|lia].
Qed.

(** [log_data], whatever its outcome, stays in bounds and keeps the
    channels at one capacity. *)
Lemma log_data_bounds r w :
  recorder_ok r →
  (log_data (r, w)).2 ≠ inl IndexError ∧
  i (log_data (r, w)).1.1 = i r ∧
  recorder_ok (log_data (r, w)).1.1 ∧
  ((log_data (r, w)).2 = inr () → room (log_data (r, w)).1.1).
Proof.
  intros Hok. unfold log_data.
  erewrite bind_eq_inr by reflexivity. cbn [fst].
  destruct Hok as [[th Hth] Hcap].
  erewrite bind_eq_inr by (unfold getitem; rewrite Hth; reflexivity).
  erewrite (bind_eq_inr _ _ _ (set_data (checked r) r, w) ()); last first.
  { unfold checked. rewrite Hth. case_bool_decide.
    - by rewrite grow_loop, grow_all by apply keys_is_Some.
    - by rewrite set_data_data. }
  pose proof (checked_room r (conj (ex_intro _ th Hth) Hcap)) as Hroom.
  match goal with
  | |- context [?m (set_data (checked r) r, w)] =>
      assert (respects shape_kept m) as Hshape by (repeat shape_step);
      assert (in_bounds m) as Hin by (repeat in_bounds_step);
      specialize (Hshape (set_data (checked r) r, w));
      specialize (Hin (set_data (checked r) r, w) Hroom);
      destruct (m (set_data (checked r) r, w)) as [[rl wl] res]
  end.
  cbn [fst snd] in *. pose proof (room_shape_kept _ _ Hshape Hroom) as Hroom'.
  destruct Hshape as [Hi _]. split_and!; try done.
  destruct Hroom' as [? (cap & ? & ?)]. split; [done|]. exists cap. split; [done|lia].
Qed.

End Invariant.

Section Reachable.

Context `{MathUtils} `{Collaborators}.

Lemma shared_capacity_init d : shared_capacity (data (__init__ d)) init_data_size.
Proof.
  intros key a. unfold __init__. cbn [data].
  repeat (rewrite lookup_insert; case_decide; [by intros [= <-]|]).
  by rewrite lookup_empty.
Qed.

Lemma recorder_ok_init d : recorder_ok (__init__ d).
Proof.
  split.
  - unfold __init__. cbn [data]. by simplify_map_eq.
  - exists init_data_size. split; [apply shared_capacity_init|]. cbn. lia.
Qed.

Lemma recorder_ok_unlogged r r' : unlogged r r' → recorder_ok r → recorder_ok r'.
Proof. intros [(_ & Hi & _) Hd]. unfold recorder_ok. by rewrite Hd, Hi. Qed.

Lemma recorder_ok_step sim r w r1 w1 res :
  recorder_ok r → step sim (r, w) = ((r1, w1), res) → recorder_ok r1.
Proof.
  intros Hok Hs.
  destruct (step_reaches_log sim (r, w)) as [(e & He & Hu)|([ra wa] & Hu & Hf)];
    rewrite Hs in *; cbn [fst snd] in *.
  - by eapply recorder_ok_unlogged.
  - apply (recorder_ok_unlogged _ _ Hu) in Hok.
    rewrite finish_tick_run in Hf.
    destruct (log_data_bounds ra wa Hok) as (_ & Hi & Hok' & Hroom).
    destruct (log_data (ra, wa)) as [[rl wl] [e|[]]]; cbn [fst snd] in *.
    + by simplify_eq.
    + destruct (Hroom eq_refl) as [Hth (cap & Hcap & Hlt)]. simplify_eq.
      split; [done|]. exists cap. split; [done|]. cbn [i set_i set_t]. lia.
Qed.

Lemma reachable_ok r : reachable r → recorder_ok r.
Proof.
  induction 1 as [d|r sim w r1 w1 res _ IH Hs]; [apply recorder_ok_init|].
  by eapply recorder_ok_step.
Qed.

End Reachable.

Section Spying.

Context `{MathUtils} (C : Collaborators).

Lemma observe_inr {A} (ev : exn + A → Event C) f w log w1 log1 (v : A) :
  observe C ev f (w, log) = ((w1, log1), inr v) →
  f w = (w1, inr v) ∧ log1 = log ++ [ev (inr v)].
Proof.
  unfold observe. cbn [fst snd]. destruct (f w) as [w0 o]. cbn [fst snd].
  intros Heq. by simplify_eq.
Qed.

(** The six calls of a successful tick, seen through the spy. *)
Lemma spy_consults sim r w log k w' log' :
  @consults _ (spy C) sim r (w, log) k (w', log') →
  @consults _ C sim r w k w' ∧ log' = log ++ tick_events C sim r k.
Proof.
  intros ([w1 l1] & [w2 l2] & [w3 l3] & [w4 l4] & [w5 l5] & p & p_d & q & wq & j &
          E1 & E2 & E3 & E4 & Hp & Hpd & Hq & Hw & Hj & Hqs & E5 & E6).
  cbn [spy state_estimator_update contact_estimator_update gait_planner_update
       swing_controller_update LegForwardKinematics qp_controller_Update
       WOOFER_CONFIG GAIT_PLANNER_CONFIG SWING_CONTROLLER_CONFIG QP_CONFIG] in *.
  apply observe_inr in E1 as [E1 ->]. apply observe_inr in E2 as [E2 ->].
  apply observe_inr in E3 as [E3 ->]. apply observe_inr in E4 as [E4 ->].
  apply observe_inr in E5 as [E5 ->]. apply observe_inr in E6 as [E6 ->].
  split.
  - by exists w1, w2, w3, w4, w5, p, p_d, q, wq, j.
  - unfold tick_events. rewrite Hqs. cbn [fst snd]. by rewrite <- !app_assoc.
Qed.

Lemma stance_calls_tick sim r k :
  stance_calls C (tick_events C sim r k)
  = [(foot_forces r, inr (qp_torques k, tick_foot_forces k, tick_ref_wrench k))].
Proof. reflexivity. Qed.

Lemma added_app (log evs : list (Event C)) : added C log (log ++ evs) = evs.
Proof. unfold added. by rewrite drop_app_length. Qed.

End Spying.

Section Aborting.

Context `{MathUtils} (C : Collaborators).

Lemma consulting_quiet {A} (m : M (@Store _ (spy C)) A) :
  local m → respects unlogged m → consulting C m.
Proof.
  intros Hl Hu s. exists []. rewrite app_nil_r. split_and!.
  - by rewrite Hl.
  - apply Hu.
  - by intros ev e ?%elem_of_nil.
Qed.

Lemma consulting_call {A} (ev : exn + A → Event C) f :
  (∀ o e, raised (ev o) = Some e → o = inl e) →
  consulting C (@call _ (spy C) A (observe C ev f)).
Proof.
  intros Hev [r [w log]]. exists [ev (f w).2]. unfold call, observe. cbn [fst snd].
  split_and!; [done|done|]. intros ev' e ->%list_elem_of_singleton Hr.
  split; [|done]. by apply Hev.
Qed.

Lemma aborts_bind {A B} (m : M (@Store _ (spy C)) A) (k : A → M (@Store _ (spy C)) B) :
  consulting C m → (∀ a, aborts C (k a)) → aborts C (m ≫= k).
Proof.
  intros Hm Hk s. destruct (Hm s) as (evs & Hlog & Hu & Hr).
  unfold mbind, M_bind. destruct (m s) as [s1 [e1|a]] eqn:Em; cbn [fst snd] in *.
  - exists evs. split; [done|]. intros ev e Hin Hraised.
    destruct (Hr ev e Hin Hraised) as [[= ->] Hlast]. done.
  - destruct (Hk a s1) as (evs' & Hlog' & Hr'). exists (evs ++ evs').
    split; [by rewrite Hlog', Hlog, app_assoc|].
    intros ev e [Hin|Hin]%elem_of_app Hraised.
    + by destruct (Hr ev e Hin Hraised) as [? _].
    + destruct (Hr' ev e Hin Hraised) as (? & ? & Hlast). split_and!; [done|by etrans|].
      destruct evs' as [|ev0 evs'] using rev_ind; [by apply elem_of_nil in Hin|].
      rewrite app_assoc, last_snoc. by rewrite last_snoc in Hlast.
Qed.

Lemma aborts_local {A} (m : M (@Store _ (spy C)) A) : local m → aborts C m.
Proof.
  intros Hl s. exists []. rewrite app_nil_r. split; [by rewrite Hl|].
  by intros ev e ?%elem_of_nil.
Qed.

End Aborting.

Ltac quiet_step :=
  apply consulting_quiet; [solve [repeat local_step]|solve [repeat respects_step]].

Ltac consulting_step :=
  first
    [ apply consulting_call; intros [?|?] ? [=]; congruence
    | quiet_step ].

Section Abort.

Context `{MathUtils} (C : Collaborators).

Lemma step_aborts sim : aborts C (@step _ (spy C) sim).
Proof.
  unfold step.
  cbn [spy state_estimator_update contact_estimator_update gait_planner_update
       swing_controller_update LegForwardKinematics qp_controller_Update].
  repeat (apply aborts_bind; [solve [consulting_step]|intros ?; split_tuple]).
  apply aborts_local. repeat first [apply log_data_local | local_step].
Qed.

End Abort.

Section Mirror.

Context `{MathUtils} (C : Collaborators).

Lemma mirrors_bind {A B} m' m (k' : A → M (@Store _ (spy C)) B) k :
  mirrors C m' m → (∀ a, mirrors C (k' a) (k a)) → mirrors C (m' ≫= k') (m ≫= k).
Proof.
  intros Hm Hk r w log. unfold mbind, M_bind. rewrite (Hm r w log).
  destruct (m' (r, (w, log))) as [[r1 [w1 log1]] [e|a]]; cbn [fst snd]; [done|].
  apply Hk.
Qed.

Lemma mirrors_ret {A} (x : A) :
  mirrors C (mret x : M (@Store _ (spy C)) A) (mret x : M (@Store _ C) A).
Proof. by intros r w log. Qed.
Lemma mirrors_this : mirrors C (@this _ (spy C)) (@this _ C).
Proof. by intros r w log. Qed.
Lemma mirrors_assign f : mirrors C (@assign _ (spy C) f) (@assign _ C f).
Proof. by intros r w log. Qed.
Lemma mirrors_lift {A} (x : exn + A) : mirrors C (lift x) (lift x).
Proof. by intros r w log. Qed.
Lemma mirrors_getattr {A} (o : option A) :
  mirrors C (@getattr _ (spy C) A o) (@getattr _ C A o).
Proof. intros r w log. by destruct o. Qed.
Lemma mirrors_not_None {A} (o : option A) :
  mirrors C (@not_None _ (spy C) A o) (@not_None _ C A o).
Proof. intros r w log. by destruct o. Qed.
Lemma mirrors_getitem {V} (d : gmap string V) key :
  mirrors C (@getitem _ (spy C) V d key) (@getitem _ C V d key).
Proof. intros r w log. unfold getitem. by destruct (d !! key). Qed.
Lemma mirrors_call {A} (ev : exn + A → Event C) f :
  mirrors C (@call _ (spy C) A (observe C ev f)) (@call _ C A f).
Proof. intros r w log. unfold call, observe. cbn [fst snd]. by destruct (f w). Qed.
Lemma mirrors_for_ {A} (xs : list A) body' body :
  (∀ x, mirrors C (body' x) (body x)) → mirrors C (for_ xs body') (for_ xs body).
Proof.
  intros Hb. induction xs as [|x xs IH]; cbn [for_].
  - apply mirrors_ret.
  - by apply mirrors_bind.
Qed.

End Mirror.

Ltac mirrors_step :=
  first
    [ apply mirrors_bind; [|intros ?; split_tuple]
    | apply mirrors_ret | apply mirrors_this | apply mirrors_assign
    | apply mirrors_lift | apply mirrors_getattr | apply mirrors_not_None
    | apply mirrors_getitem | apply mirrors_call
    | apply mirrors_for_; intros ?
    | case_bool_decide ].

Section Faithful.

Context `{MathUtils} (C : Collaborators).

Lemma log_data_mirrors : mirrors C (@log_data _ (spy C)) (@log_data _ C).
Proof. unfold log_data, log_column, log_scalar. repeat mirrors_step. Qed.

(** The spy does not change what a tick does. *)
Lemma step_mirrors sim : mirrors C (@step _ (spy C) sim) (@step _ C sim).
Proof.
  unfold step.
  cbn [spy state_estimator_update contact_estimator_update gait_planner_update
       swing_controller_update LegForwardKinematics qp_controller_Update
       WOOFER_CONFIG GAIT_PLANNER_CONFIG SWING_CONTROLLER_CONFIG QP_CONFIG].
  repeat first [apply log_data_mirrors | mirrors_step].
Qed.

End Faithful.

(** * The claims *)

Section Claims.

Context `{MathUtils} (C : Collaborators).


(** C2.  If a collaborator call of a tick raises, it is the last call of
    the tick, the tick ends with the exception of that call, and the
    time, the tick counter and the recorder are those the tick started
    with. *)
Theorem failed_call_aborts_tick sim r w log r' w' log' res ev e :
  @step _ (spy C) sim (r, (w, log)) = ((r', (w', log')), res) →
  ev ∈ added C log log' →
  raised ev = Some e →
  res = inl e ∧ t r' = t r ∧ i r' = i r ∧ data r' = data r ∧ last log' = Some ev.
Proof.
  intros Hs Hin Hraised.
  destruct (step_aborts C sim (r, (w, log))) as (evs & Hlog & Hr).
  rewrite Hs in Hlog, Hr. cbn [fst snd] in Hlog, Hr. subst log'.
  rewrite added_app in Hin.
  destruct (Hr ev e Hin Hraised) as (-> & [(? & ? & _) ?] & Hlast).
  split_and!; try done.
  destruct evs as [|ev0 evs] using rev_ind; [by apply elem_of_nil in Hin|].
  rewrite app_assoc, last_snoc. by rewrite last_snoc in Hlast.
Qed.

(** C4, amended.  When the write index of a successful tick has reached
    the capacity of [torque_history], every channel's buffer comes out of
    the tick 1000 columns longer and as wide as before; apart from the
    column the tick writes, the old columns are unchanged and the new
    ones are zero.  A buffer of the initial capacity 10 thus reaches
    capacity 1010. *)
Theorem recorder_growth sim r w r' w' tau th key a col :
  step sim (r, w) = ((r', w'), inr tau) →
  data r !! "torque_history" = Some th →
  np.shape1 th ≤ i r →
  data r !! key = Some a →
  col ≠ i r →
  ∃ a',
    data r' !! key = Some a' ∧
    np.nrows a' = np.nrows a ∧
    np.shape1 a' = np.shape1 a + 1000 ∧
    np.column a' col
      = (if decide (col < np.shape1 a) then np.column a col
         else if decide (col < np.shape1 a + 1000) then Some (np.zeros (np.nrows a))
         else None) ∧
    (np.shape1 a = init_data_size → np.shape1 a' = 1010).
Proof.
  intros (k & mask12 & _ & _ & _ & _ & Hw & Ho)%tick_effect Hth Hi Ha Hcol.
  rewrite (checked_full _ _ Hth Hi) in Hw, Ho.
  assert (∃ a', data r' !! key = Some a' ∧ np.nrows a' = np.nrows a ∧
                np.shape1 a' = np.shape1 a + 1000 ∧
                np.column a' col = np.column (grow a) col) as (a' & ? & ? & Hs & Hc).
  { set (row := log_row _ _ _ _ _ _) in *.
    destruct (decide (key ∈ row.*1)) as [Hin|Hout].
    - apply list_elem_of_fmap in Hin as ([key' v] & -> & Hin).
      rewrite Forall_forall in Hw. apply Hw in Hin as (ga & c & Hga & Hlt & _ & Hd).
      cbn [fst snd] in *. rewrite lookup_fmap, Ha in Hga. cbn [fmap option_fmap option_map] in Hga. simplify_eq.
      eexists. split; [done|]. split; [done|]. unfold np.shape1, np.column, grow.
      cbn [np.columns np.nrows]. rewrite length_insert, length_app, length_replicate.
      split; [done|]. by rewrite list_lookup_insert_ne.
    - specialize (Ho key Hout).
      rewrite lookup_fmap, Ha in Ho. eexists. split; [done|]. split; [done|].
      unfold np.shape1, grow. cbn [np.columns np.nrows].
      by rewrite length_app, length_replicate. }
  exists a'. split_and!; try done.
  - by rewrite Hc, grow_column.
  - intros Hten. rewrite Hs, Hten. reflexivity.
Qed.



(** C7.  In a successful tick the stance force controller is called once
    and receives as previous foot forces the [foot_forces] the robot
    holds when the tick starts; the robot then holds the foot forces this
    call returned.  So the call of the next tick receives what the call
    of this tick returned, and the call of the first tick of a fresh
    robot receives [0, 0, MASS * 9.81 / 4] four times over. *)
Theorem warm_start sim r w log r1 w1 log1 tau1 sim' w1' log1' r2 w2 log2 tau2 d :
  @step _ (spy C) sim (r, (w, log)) = ((r1, (w1, log1)), inr tau1) →
  @step _ (spy C) sim' (r1, (w1', log1')) = ((r2, (w2, log2)), inr tau2) →
  ∃ qp ff rw qp' ff' rw',
    stance_calls C (added C log log1) = [(foot_forces r, inr (qp, ff, rw))] ∧
    foot_forces r1 = ff ∧
    stance_calls C (added C log1' log2) = [(ff, inr (qp', ff', rw'))] ∧
    foot_forces r2 = ff' ∧
    foot_forces (@__init__ _ C d)
      = [0; 0; MASS WOOFER_CONFIG * 9.81 / 4;
         0; 0; MASS WOOFER_CONFIG * 9.81 / 4;
         0; 0; MASS WOOFER_CONFIG * 9.81 / 4;
         0; 0; MASS WOOFER_CONFIG * 9.81 / 4]%Q.
Proof.
  intros Hs1 Hs2.
  apply (@tick_effect _ (spy C)) in Hs1 as (k1 & m1 & Hk1 & _ & _ & Hr1 & _).
  apply (@tick_effect _ (spy C)) in Hs2 as (k2 & m2 & Hk2 & _ & _ & Hr2 & _).
  apply spy_consults in Hk1 as [_ ->]. apply spy_consults in Hk2 as [_ ->].
  assert (foot_forces r1 = tick_foot_forces k1) as E1 by (by rewrite Hr1).
  assert (foot_forces r2 = tick_foot_forces k2) as E2 by (by rewrite Hr2).
  exists (qp_torques k1), (tick_foot_forces k1), (tick_ref_wrench k1),
         (qp_torques k2), (tick_foot_forces k2), (tick_ref_wrench k2).
  rewrite !added_app, !stance_calls_tick, E1. split_and!; done.
Qed.

(** C8.  A successful tick calls, in this order, the state estimator and
    the contact estimator on the snapshot, the gait planner on their
    results and the time, the swing controller on the state and the
    plan, forward kinematics on the estimated attitude and joint angles,
    and the stance force controller on the state, the feet locations, the
    planned mask and references and the previous foot forces; these six
    calls are all it logs.  It then expands the mask, mixes the torques,
    updates both trackers, writes the row of the tick at the column of
    the old tick index, advances [t] by [dt] and [i] by one, and returns
    the 12 mixed torques it stored. *)
Theorem tick_sequence sim r w log r' w' log' tau :
  @step _ (spy C) sim (r, (w, log)) = ((r', (w', log')), inr tau) →
  ∃ k mask12,
    log' = log ++ tick_events C sim r k ∧
    @consults _ C sim r w k w' ∧
    mixed k mask12 tau ∧
    length tau = 12 ∧
    r' = set_i (i r + 1) (set_t (t r + dt r)%Q (set_data (data r')
           (set_max_torques
              (RunningMax_Update (RunningMax_Update (max_torques r) tau) tau)
              (set_max_forces
                 (RunningMax_Update
                    (RunningMax_Update (max_forces r) (tick_foot_forces k))
                    (tick_foot_forces k))
                 (assigned r k tau))))) ∧
    Forall (λ kv, written (checked r) (data r') (i r) kv.1 kv.2)
           (log_row (assigned r k tau) tau (tick_ref_wrench k) (tick_contacts k)
                    (tick_active_feet k) (tick_swing_forces k)).
Proof.
  intros Hs. apply (@tick_effect _ (spy C)) in Hs as (k & mask12 & Hk & Hm & _ & Hr & Hw & _).
  apply spy_consults in Hk as [Hk ->].
  exists k, mask12. split_and!; try done. by eapply mixed_length.
Qed.


(** C10.  After a successful tick started at tick index [i], column [i]
    of [torque_history] holds the returned torque vector and column [i]
    of [force_history] holds the foot-force vector the robot keeps for
    the next tick's stance solve (a 12-vector, as the stance controller
    returns it). *)
Theorem returned_values_logged sim r w r' w' tau :
  step sim (r, w) = ((r', w'), inr tau) →
  length (foot_forces r') = 12 →
  ∃ th fh,
    data r' !! "torque_history" = Some th ∧ np.column th (i r) = Some tau ∧
    data r' !! "force_history" = Some fh ∧ np.column fh (i r) = Some (foot_forces r') ∧
    torques r' = Some tau ∧ i r' = i r + 1.
Proof.
  intros (k & mask12 & _ & Hm & _ & Hr & Hw & _)%tick_effect Hff.
  assert (foot_forces r' = tick_foot_forces k) as Ef by (by rewrite Hr).
  assert (torques r' = Some tau) as Et by (by rewrite Hr).
  assert (i r' = i r + 1) as Ei by (by rewrite Hr).
  rewrite Ef in Hff |- *. apply mixed_length in Hm.
  unfold log_row in Hw. apply Forall_cons in Hw as [Ht Hw]. apply Forall_cons in Hw as [Hf _].
  cbn [fst snd assigned foot_forces] in Ht, Hf.
  destruct (written_column _ _ _ _ _ Ht Hm) as (th & ? & ?).
  destruct (written_column _ _ _ _ _ Hf Hff) as (fh & ? & ?).
  by exists th, fh.
Qed.

End Claims.

(** ** The claims on the bench *)


Lemma failed_call_aborts_tick_witness :
  Trial.crashed.2 = inl InfeasibleSolveError ∧
  t Trial.crashed.1.1 = t Trial.robot0 ∧
  i Trial.crashed.1.1 = i Trial.robot0 ∧
  data Trial.crashed.1.1 = data Trial.robot0 ∧
  last Trial.crashed.1.2.2 = Some Trial.infeasible.
Proof.
  apply (@failed_call_aborts_tick running_max Bench.collaborators Trial.fallen
           Trial.robot0 0 [] Trial.crashed.1.1 Trial.crashed.1.2.1 Trial.crashed.1.2.2
           Trial.crashed.2 Trial.infeasible InfeasibleSolveError).
  - vm_compute. reflexivity.
  - apply (list_elem_of_lookup_2 _ 5). vm_compute. reflexivity.
  - reflexivity.
Defined.

(** C3 fails on the code: a tracker that counts its [Update] calls
    stands at two after one successful tick, for the foot forces and for
    the torques alike. *)
Theorem trackers_updated_twice :
  let r0 := @__init__ counting Bench.collaborators 0.001 in
  let out := @step counting Bench.collaborators Trial.trot (r0, 0) in
  max_forces r0 = 0 ∧ max_torques r0 = 0 ∧
  out.2 = inr [5; 5; 5; 2; 2; 2; 5; 5; 5; 2; 2; 2]%Q ∧
  max_forces out.1.1 = 2 ∧ max_torques out.1.1 = 2.
Proof. vm_compute. repeat split. Qed.

(** C4 as stated fails: at tick index 10, with every buffer at the
    initial capacity 10, the tick succeeds and leaves capacity 1010,
    which is less than 1011. *)
Lemma capacity_after_growth_below_1011 :
  let s10 := (@Trial.run running_max Bench.collaborators 10 Trial.trot (Trial.robot0, 0)).1 in
  let out := @step running_max Bench.collaborators Trial.trot s10 in
  i s10.1 = 10 ∧
  np.shape1 <$> data s10.1 !! "torque_history" = Some 10 ∧
  out.2 = inr [5; 5; 5; 2; 2; 2; 5; 5; 5; 2; 2; 2]%Q ∧
  np.shape1 <$> data out.1.1 !! "torque_history" = Some 1010 ∧
  ¬ (∀ a', data out.1.1 !! "torque_history" = Some a' → 1011 ≤ np.shape1 a').
Proof.
  cbv zeta.
  assert (np.shape1 <$>
            data (@step running_max Bench.collaborators Trial.trot
                    (@Trial.run running_max Bench.collaborators 10 Trial.trot
                       (Trial.robot0, 0)).1).1.1 !! "torque_history" = Some 1010) as E
    by (vm_compute; reflexivity).
  split_and!; try (vm_compute; reflexivity).
  intros Hall. destruct (data _ !! "torque_history") as [a'|]; [|discriminate].
  specialize (Hall a' eq_refl). cbn in E. simplify_eq. lia.
Qed.

Lemma recorder_growth_witness :
  ∃ a a',
    data Trial.robot10 !! "phase_history" = Some a ∧
    data (@step running_max Bench.collaborators Trial.trot (Trial.robot10, 10)).1.1
      !! "phase_history" = Some a' ∧
    np.nrows a' = np.nrows a ∧
    np.shape1 a' = np.shape1 a + 1000 ∧
    np.column a' 3
      = (if decide (3 < np.shape1 a) then np.column a 3
         else if decide (3 < np.shape1 a + 1000) then Some (np.zeros (np.nrows a))
         else None) ∧
    (np.shape1 a = init_data_size → np.shape1 a' = 1010).
Proof.
  assert (∃ th, data Trial.robot10 !! "torque_history" = Some th ∧
                np.shape1 th ≤ i Trial.robot10) as (th & Hth & Hle).
  { eexists. split; [vm_compute; reflexivity|]. vm_compute. lia. }
  assert (∃ a, data Trial.robot10 !! "phase_history" = Some a) as [a Ha].
  { eexists. vm_compute. reflexivity. }
  assert (3 ≠ i Trial.robot10) as Hcol by (vm_compute; lia).
  assert (@step running_max Bench.collaborators Trial.trot (Trial.robot10, 10)
          = (((@step running_max Bench.collaborators Trial.trot (Trial.robot10, 10)).1.1,
              11), inr [5; 5; 5; 2; 2; 2; 5; 5; 5; 2; 2; 2]%Q)) as Hstep.
  { vm_compute. reflexivity. }
  destruct (@recorder_growth running_max Bench.collaborators _ _ _ _ _ _ th
              "phase_history" a 3 Hstep Hth Hle Ha Hcol) as (a' & Ha' & ?).
  exists a, a'. split; [exact Ha|]. split; [exact Ha'|]. assumption.
Defined.



Lemma warm_start_witness :
  ∃ qp ff rw qp' ff' rw',
    stance_calls Bench.collaborators (added Bench.collaborators [] Trial.spied0.1.2.2)
      = [(foot_forces Trial.robot0, inr (qp, ff, rw))] ∧
    foot_forces Trial.spied0.1.1 = ff ∧
    stance_calls Bench.collaborators
      (added Bench.collaborators Trial.spied0.1.2.2 Trial.spied1.1.2.2)
      = [(ff, inr (qp', ff', rw'))] ∧
    foot_forces Trial.spied1.1.1 = ff' ∧
    foot_forces (@__init__ running_max Bench.collaborators 0.001)
      = [0; 0; @MASS Bench.collaborators WOOFER_CONFIG * 9.81 / 4;
         0; 0; @MASS Bench.collaborators WOOFER_CONFIG * 9.81 / 4;
         0; 0; @MASS Bench.collaborators WOOFER_CONFIG * 9.81 / 4;
         0; 0; @MASS Bench.collaborators WOOFER_CONFIG * 9.81 / 4]%Q.
Proof.
  apply (@warm_start running_max Bench.collaborators Trial.trot Trial.robot0 0 []
           Trial.spied0.1.1 Trial.spied0.1.2.1 Trial.spied0.1.2.2
           [5; 5; 5; 2; 2; 2; 5; 5; 5; 2; 2; 2]%Q
           Trial.trot Trial.spied0.1.2.1 Trial.spied0.1.2.2
           Trial.spied1.1.1 Trial.spied1.1.2.1 Trial.spied1.1.2.2
           [5; 5; 5; 2; 2; 2; 5; 5; 5; 2; 2; 2]%Q).
  - vm_compute. reflexivity.
  - vm_compute. reflexivity.
Defined.

Lemma tick_sequence_witness :
  ∃ k mask12,
    Trial.spied0.1.2.2 = [] ++ tick_events Bench.collaborators Trial.trot Trial.robot0 k ∧
    @consults running_max Bench.collaborators Trial.trot Trial.robot0 0 k
      Trial.spied0.1.2.1 ∧
    mixed k mask12 [5; 5; 5; 2; 2; 2; 5; 5; 5; 2; 2; 2]%Q ∧
    length [5; 5; 5; 2; 2; 2; 5; 5; 5; 2; 2; 2]%Q = 12 ∧
    Trial.spied0.1.1
    = set_i (i Trial.robot0 + 1) (set_t (t Trial.robot0 + dt Trial.robot0)%Q
        (set_data (data Trial.spied0.1.1)
           (set_max_torques
              (RunningMax_Update
                 (RunningMax_Update (max_torques Trial.robot0)
                    [5; 5; 5; 2; 2; 2; 5; 5; 5; 2; 2; 2]%Q)
                 [5; 5; 5; 2; 2; 2; 5; 5; 5; 2; 2; 2]%Q)
              (set_max_forces
                 (RunningMax_Update
                    (RunningMax_Update (max_forces Trial.robot0) (tick_foot_forces k))
                    (tick_foot_forces k))
                 (assigned Trial.robot0 k [5; 5; 5; 2; 2; 2; 5; 5; 5; 2; 2; 2]%Q))))) ∧
    Forall (λ kv, written (checked Trial.robot0) (data Trial.spied0.1.1)
                    (i Trial.robot0) kv.1 kv.2)
           (log_row (assigned Trial.robot0 k [5; 5; 5; 2; 2; 2; 5; 5; 5; 2; 2; 2]%Q)
              [5; 5; 5; 2; 2; 2; 5; 5; 5; 2; 2; 2]%Q (tick_ref_wrench k)
              (tick_contacts k) (tick_active_feet k) (tick_swing_forces k)).
Proof.
  apply (@tick_sequence running_max Bench.collaborators Trial.trot Trial.robot0 0 []).
  vm_compute. reflexivity.
Defined.


Lemma returned_values_logged_witness :
  ∃ th fh,
    data (@step running_max Bench.collaborators Trial.trot (Trial.robot0, 0)).1.1
      !! "torque_history" = Some th ∧
    np.column th (i Trial.robot0) = Some [5; 5; 5; 2; 2; 2; 5; 5; 5; 2; 2; 2]%Q ∧
    data (@step running_max Bench.collaborators Trial.trot (Trial.robot0, 0)).1.1
      !! "force_history" = Some fh ∧
    np.column fh (i Trial.robot0)
      = Some (foot_forces
                (@step running_max Bench.collaborators Trial.trot (Trial.robot0, 0)).1.1) ∧
    torques (@step running_max Bench.collaborators Trial.trot (Trial.robot0, 0)).1.1
      = Some [5; 5; 5; 2; 2; 2; 5; 5; 5; 2; 2; 2]%Q ∧
    i (@step running_max Bench.collaborators Trial.trot (Trial.robot0, 0)).1.1
      = i Trial.robot0 + 1.
Proof.
  apply (@returned_values_logged running_max Bench.collaborators Trial.trot
           Trial.robot0 0 _ 1 [5; 5; 5; 2; 2; 2; 5; 5; 5; 2; 2; 2]%Q).
  - vm_compute. reflexivity.
  - vm_compute. reflexivity.
Defined.

(** * Further properties: supporting lemmas *)

Section Frames.

Context `{MathUtils} `{Collaborators}.

(** [log_data] from its capacity check on, whatever its outcome. *)
Lemma log_data_checked (R : relation WooferRobot) `{!PreOrder R} r w :
  (∀ r r', data r' = data r → i r' = i r → R r r') →
  (∀ key v, respects R (log_column key v)) →
  is_Some (data r !! "torque_history") →
  R (set_data (checked r) r) (log_data (r, w)).1.1.
Proof.
  intros Hframe Hcol [th Hth]. unfold log_data.
  erewrite bind_eq_inr by reflexivity. cbn [fst].
  erewrite bind_eq_inr by (unfold getitem; rewrite Hth; reflexivity).
  erewrite (bind_eq_inr _ _ _ (set_data (checked r) r, w) ()); last first.
  { unfold checked. rewrite Hth. case_bool_decide.
    - by rewrite grow_loop, grow_all by apply keys_is_Some.
    - by rewrite set_data_data. }
  match goal with
  | |- context [?m (set_data (checked r) r, w)] =>
      assert (respects R m) as Hm; [|exact (Hm (set_data (checked r) r, w))]
  end.
  assert (∀ key x, respects R (log_scalar key x)) as Hsc.
  { intros key x [r0 w0]. rewrite log_scalar_run. apply Hcol. }
  repeat first
    [ apply Hcol | apply Hsc
    | apply respects_bind; [apply _| |intros ?; split_tuple]
    | apply respects_this; apply _
    | apply respects_getattr; apply _
    | apply respects_not_None; apply _
    | apply respects_assign; intros ?; by apply Hframe ].
Qed.

Lemma log_data_respects (R : relation WooferRobot) `{!PreOrder R} :
  (∀ r r', data r' = data r → i r' = i r → R r r') →
  (∀ r, R r (set_data (checked r) r)) →
  (∀ key v, respects R (log_column key v)) →
  respects R log_data.
Proof.
  intros Hframe Hchk Hcol [r w]. cbn [fst].
  destruct (data r !! "torque_history") as [th|] eqn:Hth.
  - etrans; [apply Hchk|]. apply log_data_checked; eauto.
  - unfold log_data. erewrite bind_eq_inr by reflexivity. cbn [fst].
    erewrite bind_eq_inl by (unfold getitem; rewrite Hth; reflexivity).
    reflexivity.
Qed.

Lemma respects_this_assign {B} (R : relation WooferRobot) `{!PreOrder R}
    (g : WooferRobot → WooferRobot → WooferRobot) (k : WooferRobot → () → M Store B) :
  (∀ r, R r (g r r)) → (∀ self u, respects R (k self u)) →
  respects R (this ≫= λ self, assign (g self) ≫= k self).
Proof.
  intros Hg Hk [r w]. unfold mbind, M_bind, this, assign. cbn [fst snd].
  etrans; [apply Hg|]. apply (Hk r () (g r r, w)).
Qed.

Lemma step_respects (R : relation WooferRobot) `{!PreOrder R} :
  (∀ r r', data r' = data r → i r ≤ i r' → R r r') →
  (∀ r, R r (set_data (checked r) r)) →
  (∀ key v, respects R (log_column key v)) →
  ∀ sim, respects R (step sim).
Proof.
  intros Hframe Hchk Hcol sim. unfold step.
  repeat first
    [ apply log_data_respects; [apply _|intros ? ? ? Hi; apply Hframe; [done|by rewrite Hi]|done|done]
    | apply respects_this_assign; [apply _|intros ?; apply Hframe; [done|cbn; lia]|intros ? ?]
    | apply respects_bind; [apply _| |intros ?; split_tuple]
    | apply respects_ret; apply _ | apply respects_this; apply _
    | apply respects_lift; apply _ | apply respects_call; apply _
    | apply respects_getattr; apply _
    | apply respects_not_None; apply _ | apply respects_getitem; apply _
    | apply respects_assign; intros ?; apply Hframe; [done|cbn; lia] ].
Qed.

End Frames.

Section HistoryFacts.

Context `{MathUtils} `{Collaborators}.

Global Instance rows_kept_preorder : PreOrder rows_kept.
Proof.
  split; [by intros r key|]. intros r1 r2 r3 H12 H23 key. by rewrite H23, H12.
Qed.

Global Instance past_kept_preorder : PreOrder past_kept.
Proof.
  split.
  - intros r. split; [done|]. eauto.
  - intros r1 r2 r3 [Hi Hd] [Hi' Hd']. split; [lia|].
    intros key a col v Hcol Ha Hv.
    destruct (Hd key a col v Hcol Ha Hv) as (a' & Ha' & Hv').
    apply (Hd' key a' col v); [lia|done|done].
Qed.

Lemma checked_lookup r key :
  checked r !! key = data r !! key ∨ checked r !! key = grow <$> data r !! key.
Proof.
  unfold checked. destruct (data r !! "torque_history"); [|by left].
  case_bool_decide; [right; apply lookup_fmap|by left].
Qed.

Lemma step_rows_kept sim : respects rows_kept (step sim).
Proof.
  apply step_respects; [apply _|..].
  - intros r r' Hd _ key. by rewrite Hd.
  - intros r key. cbn [data set_data].
    destruct (checked_lookup r key) as [->| ->]; [done|].
    by destruct (data r !! key).
  - intros key v [r w]. rewrite log_column_run. cbn [fst].
    destruct (data r !! key) as [a|] eqn:Ea; [|done].
    destruct (np.setitem_column a (i r) v) as [e|a'] eqn:Es; [done|].
    apply setitem_column_inr in Es as (_ & c & _ & ->).
    intros key'. cbn [fst data set_data].
    destruct (decide (key = key')) as [<-|]; [by rewrite lookup_insert_eq, Ea|].
    by rewrite lookup_insert_ne.
Qed.

Lemma step_past_kept sim : respects past_kept (step sim).
Proof.
  apply step_respects; [apply _|..].
  - intros r r' Hd Hi. split; [done|]. rewrite Hd. eauto.
  - intros r. split; [done|]. intros key a col v Hcol Ha Hv. cbn [data set_data].
    destruct (checked_lookup r key) as [->| ->]; rewrite Ha; [eauto|].
    eexists. split; [done|]. unfold np.column, grow in *. cbn [np.columns].
    by apply lookup_app_l_Some.
  - intros key v [r w]. rewrite log_column_run. cbn [fst].
    destruct (data r !! key) as [a|] eqn:Ea; [|done].
    destruct (np.setitem_column a (i r) v) as [e|a'] eqn:Es; [done|].
    apply setitem_column_inr in Es as (_ & c & _ & ->).
    split; [done|]. intros key' a0 col v0 Hcol Ha0 Hv0. cbn [fst data set_data].
    destruct (decide (key = key')) as [<-|].
    + rewrite lookup_insert_eq. eexists. split; [done|]. simplify_eq.
      unfold np.column in *. cbn [np.columns]. rewrite list_lookup_insert_ne by lia. done.
    + rewrite lookup_insert_ne by done. eauto.
Qed.

Lemma run_past_kept n r r' : run n r r' → past_kept r r'.
Proof.
  induction 1 as [r|n r sim w r1 w1 tau r2 Hs _ IH|n r sim w r1 w1 e r2 Hs _ IH].
  - reflexivity.
  - etrans; [|exact IH]. pose proof (step_past_kept sim (r, w)) as Hp.
    by rewrite Hs in Hp.
  - etrans; [|exact IH]. pose proof (step_past_kept sim (r, w)) as Hp.
    by rewrite Hs in Hp.
Qed.

Lemma init_rows d : np.nrows <$> data (__init__ d) = list_to_map channel_rows.
Proof. vm_cast_no_check (@eq_refl (gmap string nat) (list_to_map channel_rows)). Qed.

Lemma reachable_rows r : reachable r → np.nrows <$> data r = list_to_map channel_rows.
Proof.
  induction 1 as [d|r sim w r1 w1 res _ IH Hs]; [apply init_rows|].
  rewrite <- IH. apply map_eq. intros key. rewrite !lookup_fmap.
  pose proof (step_rows_kept sim (r, w) key) as Hk. by rewrite Hs in Hk.
Qed.

Lemma log_data_shape r w :
  is_Some (data r !! "torque_history") →
  shape_kept (set_data (checked r) r) (log_data (r, w)).1.1.
Proof.
  intros Hth. apply log_data_checked; [apply _| |apply log_column_shape|done].
  intros r0 r1 Hd Hi. split; [done|]. by rewrite Hd.
Qed.

Lemma slack_unlogged r r' : unlogged r r' → slack r → slack r'.
Proof. intros [(_ & Hi & _) Hd]. unfold slack. by rewrite Hd, Hi. Qed.

Lemma slack_step sim r w r1 w1 res :
  slack r → step sim (r, w) = ((r1, w1), res) → slack r1.
Proof.
  intros Hok Hs.
  destruct (step_reaches_log sim (r, w)) as [(e & He & Hu)|([ra wa] & Hu & Hf)];
    rewrite Hs in *; cbn [fst snd] in *.
  - by eapply slack_unlogged.
  - apply (slack_unlogged _ _ Hu) in Hok. clear Hu Hs.
    destruct Hok as [[th Hth] (m & Hcap & Hi)].
    rewrite finish_tick_run in Hf.
    pose proof (log_data_shape ra wa (ex_intro _ th Hth)) as [Hil Hshape].
    pose proof (Hcap _ _ Hth) as Hcapth.
    assert (∃ m', shared_capacity (checked ra) (init_data_size + 1000 * m') ∧
                  i ra < init_data_size + 1000 * m' ≤ i ra + 1000 ∧
                  is_Some (checked ra !! "torque_history")) as (m' & Hcap' & Hi' & Hth').
    { unfold checked. rewrite Hth. case_bool_decide as Hfull.
      - exists (S m). split_and!; [|lia|lia|by rewrite lookup_fmap, Hth].
        replace (init_data_size + 1000 * S m) with (init_data_size + 1000 * m + 1000) by lia.
        by apply shared_capacity_grow.
      - exists m. split_and!; [done|lia|lia|eauto]. }
    cbn [i data set_data] in Hil, Hshape.
    assert (shared_capacity (data (log_data (ra, wa)).1.1) (init_data_size + 1000 * m') ∧
            is_Some (data (log_data (ra, wa)).1.1 !! "torque_history")) as [Hcapl Hthl].
    { split.
      - intros key a' Ha'. specialize (Hshape key). rewrite Ha' in Hshape.
        destruct (checked ra !! key) as [a|] eqn:Ea; [|done].
        cbn in Hshape. simplify_eq. rewrite Hshape. by eapply Hcap'.
      - specialize (Hshape "torque_history"). destruct Hth' as [? Hth'].
        rewrite Hth' in Hshape.
        destruct (data (log_data (ra, wa)).1.1 !! "torque_history"); [eauto|done]. }
    destruct (log_data (ra, wa)) as [[rl wl] [e|[]]]; cbn [fst snd] in *.
    + simplify_eq. split; [done|]. exists m'. split; [done|lia].
    + simplify_eq. split; [done|]. exists m'. split; [done|]. cbn [i set_i set_t]. lia.
Qed.

Lemma slack_init d : slack (__init__ d).
Proof.
  split; [apply recorder_ok_init|]. exists 0. split.
  - replace (init_data_size + 1000 * 0) with init_data_size by lia.
    apply shared_capacity_init.
  - cbn. lia.
Qed.

Lemma reachable_slack r : reachable r → slack r.
Proof.
  induction 1 as [d|r sim w r1 w1 res _ IH Hs]; [apply slack_init|].
  by eapply slack_step.
Qed.

End HistoryFacts.

Section Forward.

Context `{MathUtils} `{Collaborators}.

Lemma call_eq_inr {A} (f : World → World * (exn + A)) r w w1 v :
  f w = (w1, inr v) → call f (r, w) = ((r, w1), inr v).
Proof. unfold call. cbn [fst snd]. by intros ->. Qed.

Lemma call_eq_inl {A} (f : World → World * (exn + A)) r w w1 e :
  f w = (w1, inl e) → call f (r, w) = ((r, w1), inl e).
Proof. unfold call. cbn [fst snd]. by intros ->. Qed.

Lemma getitem_eq_inr {V} (d : gmap string V) key v (s : Store) :
  d !! key = Some v → getitem d key s = (s, inr v).
Proof. unfold getitem. by intros ->. Qed.

Lemma getitem_eq_inl {V} (d : gmap string V) key (s : Store) :
  d !! key = None → getitem d key s = (s, inl KeyError).
Proof. unfold getitem. by intros ->. Qed.

Lemma lift_eq {A} (x : exn + A) (s : Store) : lift x s = (s, x).
Proof. done. Qed.

Lemma consults_prepares sim r w k w' :
  consults sim r w k w' ↔
  ∃ w5, prepares sim r w k w5 ∧
        stance_solve r k w5 = (w', inr (qp_torques k, tick_foot_forces k, tick_ref_wrench k)).
Proof.
  unfold consults, prepares, plans, stance_solve. split.
  - intros (w1&w2&w3&w4&w5&p&p_d&q&wq&j&?&?&?&?&?&?&?&?&?&?&?&?).
    exists w5. split; [|done]. exists w4, p, p_d, q, wq, j. split_and!; eauto 10.
  - intros (w5&(w4&p&p_d&q&wq&j&(w1&w2&w3&?&?&?&?)&?&?&?&?&?&?&?)&?).
    exists w1, w2, w3, w4, w5, p, p_d, q, wq, j. split_and!; done.
Qed.

Lemma assigned_solved r k tau : assigned r k tau = set_torques (Some tau) (solved r k).
Proof. reflexivity. Qed.

End Forward.

(** One statement of a computation, run forward on a known state. *)
Ltac fwd_norm :=
  cbv beta iota;
  cbn [fst snd state contacts max_torques max_forces data dt t i foot_forces phase
       step_phase step_locations p_step_locations swing_torques swing_trajectory
       foot_positions active_feet swing_forces feet_locations ref_wrench torques
       set_state set_contacts set_max_torques set_max_forces set_data set_t set_i
       set_foot_forces set_phase set_step_phase set_step_locations
       set_p_step_locations set_swing_torques set_swing_trajectory
       set_foot_positions set_active_feet set_swing_forces set_feet_locations
       set_ref_wrench set_torques not_None getattr].

Ltac fwd :=
  first
    [ erewrite bind_eq_inr by reflexivity
    | erewrite bind_eq_inr by (apply call_eq_inr; eassumption)
    | erewrite bind_eq_inr by (apply getitem_eq_inr; eassumption)
    | erewrite bind_eq_inr by (rewrite lift_eq; f_equal; eassumption)
    | erewrite bind_eq_inr
        by (match goal with E : _ = Some _ |- _ => rewrite E end; reflexivity) ];
  fwd_norm.

Section ForwardTick.

Context `{MathUtils} `{Collaborators}.

(** The tick up to the mix of the torques. *)
Lemma step_solved sim r w k w' :
  consults sim r w k w' →
  step sim (r, w)
  = match np.take (tick_active_feet k) [0; 0; 0; 1; 1; 1; 2; 2; 2; 3; 3; 3] with
    | inl e => ((solved r k, w'), inl e)
    | inr mask12 =>
        match np.multiply mask12 (qp_torques k) with
        | inl e => ((solved r k, w'), inl e)
        | inr x =>
            match np.multiply (np.rsub 1 mask12) (tick_swing_torques k) with
            | inl e => ((solved r k, w'), inl e)
            | inr y =>
                match np.add x y with
                | inl e => ((solved r k, w'), inl e)
                | inr tau => finish_tick (before_log r k tau, w')
                end
            end
        end
    end.
Proof.
  intros (w1 & w2 & w3 & w4 & w5 & p & p_d & q & wq & j & E1 & E2 & E3 & E4 &
          Hp & Hpd & Hq & Hw & Hj & Hqs & E5 & E6).
  rewrite Hqs in E6.
  unfold step. repeat fwd.
  destruct (np.take _ _) as [e|mask12] eqn:Et.
  { erewrite bind_eq_inl by (by rewrite lift_eq). reflexivity. }
  repeat fwd.
  destruct (np.multiply mask12 _) as [e|x] eqn:Ex.
  { erewrite bind_eq_inl by (by rewrite lift_eq). reflexivity. }
  fwd.
  destruct (np.multiply (np.rsub 1 mask12) _) as [e|y] eqn:Ey.
  { erewrite bind_eq_inl by (by rewrite lift_eq). reflexivity. }
  fwd.
  destruct (np.add x y) as [e|tau] eqn:Exy.
  { erewrite bind_eq_inl by (by rewrite lift_eq). reflexivity. }
  repeat fwd. reflexivity.
Qed.

End ForwardTick.

Section RowFacts.

Context `{MathUtils} `{Collaborators}.

Lemma fits_broadcast_to n v : fits n v ↔ ∃ c, np.broadcast_to n v = inr c.
Proof.
  unfold fits, np.broadcast_to. case_decide as Hn.
  - split; eauto.
  - split.
    + intros [?|Hl]; [done|]. destruct v as [|x [|]]; try done. eauto.
    + intros [c Hc]. right. by destruct v as [|x [|]].
Qed.

Lemma broadcast_to_length n v c : np.broadcast_to n v = inr c → length c = n.
Proof.
  unfold np.broadcast_to. case_decide; [congruence|].
  destruct v as [|x [|]]; try done. intros [= <-]. apply length_replicate.
Qed.

Lemma broadcast_to_error n v e : np.broadcast_to n v = inl e → e = ValueError ∧ ¬ fits n v.
Proof.
  intros He. split.
  - unfold np.broadcast_to in He. case_decide; [done|].
    destruct v as [|x [|]]; congruence.
  - intros [c Hc]%fits_broadcast_to. congruence.
Qed.

Lemma bind_cong {S A B} (m1 m2 : M S A) (k1 k2 : A → M S B) s :
  m1 s = m2 s →
  (∀ a s1, m2 s = (s1, inr a) → k1 a s1 = k2 a s1) → (m1 ≫= k1) s = (m2 ≫= k2) s.
Proof.
  intros Hm Hk. unfold mbind, M_bind. rewrite Hm.
  destruct (m2 s) as [s1 [e|a]]; [done|]. by apply Hk.
Qed.

Lemma log_column_inr key v r w r1 w1 :
  log_column key v (r, w) = ((r1, w1), inr ()) → ∃ d, r1 = set_data d r ∧ w1 = w.
Proof.
  rewrite log_column_run. destruct (data r !! key) as [a|]; [|done].
  destruct (np.setitem_column a (i r) v); [done|]. intros [= <- <-]. eauto.
Qed.

Lemma bind_ret_unit {S} (m : M S ()) s : (m ≫= λ _, mret ()) s = m s.
Proof. unfold mbind, M_bind, mret, M_ret. by destruct (m s) as [s1 [e|[]]]. Qed.

(** The capacity check and the tracker updates of [log_data], followed
    by the writes. *)
Lemma log_data_run r w th tq rw cs af swf :
  data r !! "torque_history" = Some th →
  torques r = Some tq → ref_wrench r = Some rw → contacts r = Some cs →
  active_feet r = Some af → swing_forces r = Some swf →
  log_data (r, w) = write_row (log_row r tq rw cs af swf) (tracked r tq, w).
Proof.
  intros Hth Htq Hrw Hcs Haf Hswf. unfold log_data.
  erewrite bind_eq_inr by reflexivity. cbn [fst].
  erewrite bind_eq_inr by (by apply getitem_eq_inr).
  erewrite (bind_eq_inr _ _ _ (set_data (checked r) r, w) ()); last first.
  { unfold checked. rewrite Hth. case_bool_decide.
    - by rewrite grow_loop, grow_all by apply keys_is_Some.
    - by rewrite set_data_data. }
  do 5 fwd.
  unfold write_row, log_row, tracked. cbn [for_ fst snd].
  do 10 (match goal with |- ?L = ?R => set (rhs := R) end; repeat fwd; subst rhs;
         apply bind_cong; [first [reflexivity|apply log_scalar_run]|];
         intros [] [? ?] (? & -> & ->)%log_column_inr).
  repeat fwd. rewrite bind_ret_unit. apply log_scalar_run.
Qed.

Lemma tick_row_log_row r k tau :
  log_row (assigned r k tau) tau (tick_ref_wrench k) (tick_contacts k)
          (tick_active_feet k) (tick_swing_forces k) = tick_row k tau.
Proof. reflexivity. Qed.

Lemma write_row_cons kv rows s :
  write_row (kv :: rows) s = (log_column kv.1 kv.2 ≫= λ _, write_row rows) s.
Proof. reflexivity. Qed.

Lemma written_holds d d' col kv : written d d' col kv.1 kv.2 → holds d' col kv.
Proof.
  intros (a & c & Ha & Hcol & Hc & Hd'). exists (np.mk2 (np.nrows a) (<[col:=c]> (np.columns a))), c.
  split_and!; [done|done|]. unfold np.column. cbn. by apply list_lookup_insert_eq.
Qed.

(** Writing a row whose values all fit. *)
Lemma write_row_inr rows r w :
  NoDup rows.*1 →
  Forall (λ kv, ∃ a, data r !! kv.1 = Some a ∧ i r < np.shape1 a ∧
                     fits (np.nrows a) kv.2) rows →
  ∃ d', write_row rows (r, w) = ((set_data d' r, w), inr ()) ∧
        (∀ key, key ∉ rows.*1 → d' !! key = data r !! key) ∧
        Forall (λ kv, written (data r) d' (i r) kv.1 kv.2) rows.
Proof.
  revert r. induction rows as [|[key v] rows IH]; intros r Hnd Hok.
  - exists (data r). rewrite set_data_data. split_and!; [done|done|constructor].
  - apply NoDup_cons in Hnd as [Hkey Hnd]. apply Forall_cons in Hok as [(a & Ha & Hi & Hv) Hok].
    cbn [fst snd] in *. apply fits_broadcast_to in Hv as [c Hc].
    rewrite write_row_cons. cbn [fst snd].
    erewrite bind_eq_inr; last first.
    { rewrite log_column_run, Ha. unfold np.setitem_column.
      rewrite decide_True by done. rewrite Hc. reflexivity. }
    set (a' := np.mk2 (np.nrows a) (<[i r:=c]> (np.columns a))).
    destruct (IH (set_data (<[key:=a']> (data r)) r) Hnd) as (d' & Hrun & Hother & Hw).
    { rewrite Forall_forall in Hok |- *. intros [key' v'] Hin.
      destruct (Hok _ Hin) as (a0 & Ha0 & ? & ?). cbn [fst snd data set_data i] in *.
      exists a0. split_and!; [|done|done].
      rewrite lookup_insert_ne; [done|]. intros ->. apply Hkey.
      apply list_elem_of_fmap. by exists (key', v'). }
    cbn [fst snd data set_data i] in *.
    exists d'. split_and!.
    + rewrite Hrun. by destruct r.
    + intros key' Hkey'. apply not_elem_of_cons in Hkey' as [Hne Hkey'].
      rewrite Hother by done. by rewrite lookup_insert_ne.
    + apply Forall_cons. split.
      * exists a, c. cbn [fst snd]. split_and!; [done|done|done|].
        rewrite Hother by done. by rewrite lookup_insert_eq.
      * rewrite Forall_forall in Hw |- *. intros [key' v'] Hin.
        destruct (Hw _ Hin) as (a0 & c0 & Ha0 & ? & ? & ?). cbn [fst snd] in *.
        exists a0, c0. split_and!; [|done|done|done].
        rewrite lookup_insert_ne in Ha0; [done|]. intros ->. apply Hkey.
        apply list_elem_of_fmap. by exists (key', v').
Qed.

Lemma write_row_app rows1 rows2 s :
  write_row (rows1 ++ rows2) s = (write_row rows1 ≫= λ _, write_row rows2) s.
Proof.
  revert s. induction rows1 as [|kv rows1 IH]; intros s; [done|].
  cbn [app]. rewrite write_row_cons.
  change (write_row (kv :: rows1)) with (log_column kv.1 kv.2 ≫= λ _, write_row rows1).
  unfold mbind, M_bind in *.
  destruct (log_column kv.1 kv.2 s) as [s1 [e|[]]]; [done|]. apply IH.
Qed.

(** Writing a row of which the value after [rows] does not fit. *)
Lemma write_row_inl rows key v rest r w a :
  NoDup (rows ++ [(key, v)]).*1 →
  Forall (λ kv, ∃ a, data r !! kv.1 = Some a ∧ i r < np.shape1 a ∧
                     fits (np.nrows a) kv.2) rows →
  data r !! key = Some a → i r < np.shape1 a → ¬ fits (np.nrows a) v →
  ∃ d', write_row (rows ++ (key, v) :: rest) (r, w) = ((set_data d' r, w), inl ValueError) ∧
        Forall (λ kv, written (data r) d' (i r) kv.1 kv.2) rows.
Proof.
  intros Hnd Hok Ha Hi Hv. rewrite fmap_app in Hnd. apply NoDup_app in Hnd as (Hnd & Hkey & _).
  destruct (write_row_inr rows r w Hnd Hok) as (d' & Hrun & Hother & Hw).
  exists d'. split; [|done].
  rewrite write_row_app. erewrite bind_eq_inr by exact Hrun.
  rewrite write_row_cons. cbn [fst snd].
  erewrite bind_eq_inl; [done|].
  rewrite log_column_run. cbn [data set_data i].
  rewrite Hother, Ha; last first.
  { intros Hin. apply (Hkey key Hin). cbn. left. }
  unfold np.setitem_column. rewrite decide_True by done.
  destruct (np.broadcast_to (np.nrows a) v) as [e|c] eqn:Hc.
  - by apply broadcast_to_error in Hc as [-> _].
  - exfalso. apply Hv, fits_broadcast_to. eauto.
Qed.

End RowFacts.

Section Channels.

Context `{MathUtils} `{Collaborators}.

Lemma channel_rows_NoDup : NoDup channel_rows.*1.
Proof. apply (bool_decide_unpack _). vm_compute. exact I. Qed.

Lemma tick_row_keys k tau : (tick_row k tau).*1 = channel_rows.*1.
Proof. reflexivity. Qed.

(** On a robot the driver can hold, every channel is there after the
    capacity check, with its row count and room for the row. *)
Lemma checked_channels r key n :
  reachable r → (key, n) ∈ channel_rows →
  ∃ a, checked r !! key = Some a ∧ np.nrows a = n ∧ i r < np.shape1 a.
Proof.
  intros Hr Hin.
  assert (np.nrows <$> data r !! key = Some n) as Hn.
  { rewrite <- lookup_fmap, (reachable_rows r Hr).
    apply elem_of_list_to_map_1; [apply channel_rows_NoDup|done]. }
  destruct (checked_room r (reachable_ok r Hr)) as [_ (cap & Hcap & Hlt)].
  cbn [data set_data i] in Hcap, Hlt.
  destruct (data r !! key) as [a|] eqn:Ea; [|done]. cbn in Hn. simplify_eq.
  destruct (checked_lookup r key) as [Hc|Hc]; rewrite Ea in Hc.
  - exists a. split_and!; [done|done|]. by rewrite (Hcap _ _ Hc).
  - exists (grow a). split_and!; [done|done|]. by rewrite (Hcap _ _ Hc).
Qed.

Lemma row_fit_checked r kv :
  reachable r → row_fit kv →
  ∃ a, checked r !! kv.1 = Some a ∧ i r < np.shape1 a ∧ fits (np.nrows a) kv.2.
Proof.
  intros Hr (n & Hin & Hfit).
  destruct (checked_channels r _ n Hr Hin) as (a & ? & <- & ?). eauto.
Qed.

Lemma written_row_fit r d' kv n :
  reachable r → (kv.1, n) ∈ channel_rows →
  written (checked r) d' (i r) kv.1 kv.2 → row_fit kv.
Proof.
  intros Hr Hin (a & c & Ha & _ & Hc & _).
  destruct (checked_channels r _ n Hr Hin) as (a' & Ha' & <- & _).
  exists (np.nrows a'). split; [done|]. simplify_eq. apply fits_broadcast_to. eauto.
Qed.

Lemma tick_row_channels k tau :
  Forall (λ kv, ∃ n, (kv.1, n) ∈ channel_rows) (tick_row k tau).
Proof.
  unfold tick_row, channel_rows.
  repeat (apply Forall_cons; split;
          [eexists; cbn [fst];
           by repeat first [apply list_elem_of_here | apply list_elem_of_further]|]).
  constructor.
Qed.

(** The end of a tick on a robot the driver can hold. *)
Lemma finish_tick_row r w k tau :
  reachable r →
  finish_tick (before_log r k tau, w)
  = match write_row (tick_row k tau) (tracked (before_log r k tau) tau, w) with
    | (sl, inl e) => (sl, inl e)
    | (sl, inr _) =>
        ((set_i (i sl.1 + 1) (set_t (t sl.1 + dt sl.1)%Q sl.1), sl.2),
         match torques sl.1 with
         | Some tq => inr tq
         | None => inl AttributeError
         end)
    end.
Proof.
  intros [[th Hth] _]%reachable_ok. rewrite finish_tick_run.
  by erewrite log_data_run.
Qed.

Lemma step_mixed sim r w k w' mask12 tau :
  consults sim r w k w' → mixed k mask12 tau →
  step sim (r, w) = finish_tick (before_log r k tau, w').
Proof.
  intros Hk (x & y & Ht & Hx & Hy & Hxy). rewrite (step_solved _ _ _ _ _ Hk).
  by rewrite Ht, Hx, Hy, Hxy.
Qed.

End Channels.

Section MixFacts.

Context `{MathUtils} `{Collaborators}.

Lemma take_short (af : list Q) :
  length af < 4 → np.take af [0; 0; 0; 1; 1; 1; 2; 2; 2; 3; 3; 3] = inl IndexError.
Proof.
  intros Hl. destruct af as [|a0 [|a1 [|a2 [|a3 rest]]]]; try reflexivity.
  cbn in Hl. lia.
Qed.

Lemma take_long (af : list Q) :
  4 ≤ length af →
  ∃ mask12, np.take af [0; 0; 0; 1; 1; 1; 2; 2; 2; 3; 3; 3] = inr mask12 ∧
            length mask12 = 12.
Proof.
  intros Hl. destruct af as [|a0 [|a1 [|a2 [|a3 rest]]]]; cbn in Hl; try lia.
  eexists. split; reflexivity.
Qed.

Lemma broadcast2_fits f (xs ys : list Q) :
  length xs = 12 →
  match np.broadcast2 f xs ys with
  | inl e => e = ValueError ∧ ¬ fits 12 ys
  | inr zs => length zs = 12 ∧ fits 12 ys
  end.
Proof.
  intros Hxs. unfold np.broadcast2, fits. case_decide as Hl.
  - rewrite length_zip_with. split; [lia|]. left. congruence.
  - destruct xs as [|x [|x' xs]]; [done|done|].
    destruct ys as [|y [|y' ys]].
    + split; [done|]. cbn. lia.
    + rewrite length_map. split; [done|]. by right.
    + split; [done|]. cbn in *. lia.
Qed.


Lemma step_short_mask sim r w k w' :
  consults sim r w k w' → length (tick_active_feet k) < 4 →
  step sim (r, w) = ((solved r k, w'), inl IndexError).
Proof.
  intros Hk Hl. rewrite (step_solved _ _ _ _ _ Hk). by rewrite take_short.
Qed.

Lemma step_shape_mismatch sim r w k w' :
  consults sim r w k w' → 4 ≤ length (tick_active_feet k) →
  ¬ (fits 12 (qp_torques k) ∧ fits 12 (tick_swing_torques k)) →
  step sim (r, w) = ((solved r k, w'), inl ValueError).
Proof.
  intros Hk Haf Hn. rewrite (step_solved _ _ _ _ _ Hk).
  destruct (take_long _ Haf) as (mask12 & -> & Hl).
  pose proof (broadcast2_fits Qmult mask12 (qp_torques k) Hl) as Hx.
  unfold np.multiply, np.add.
  destruct (np.broadcast2 Qmult mask12 (qp_torques k)) as [e|x] eqn:Ex;
    [by destruct Hx as [-> _]|]. destruct Hx as [Hlx Hqp].
  assert (length (np.rsub 1 mask12) = 12) as Hl' by (unfold np.rsub; by rewrite length_map).
  pose proof (broadcast2_fits Qmult _ (tick_swing_torques k) Hl') as Hy.
  destruct (np.broadcast2 Qmult (np.rsub 1 mask12) (tick_swing_torques k)) as [e|y] eqn:Ey;
    [by destruct Hy as [-> _]|]. destruct Hy as [Hly Hsw].
  exfalso. by apply Hn.
Qed.

End MixFacts.

Section TickOutcome.

Context `{MathUtils} `{Collaborators}.

Lemma tracked_before_log r k tau :
  data (tracked (before_log r k tau) tau) = checked r ∧
  i (tracked (before_log r k tau) tau) = i r.
Proof. done. Qed.

Lemma write_tick_row_ok r k tau rows :
  reachable r → Forall row_fit rows →
  Forall (λ kv, ∃ a, data (tracked (before_log r k tau) tau) !! kv.1 = Some a ∧
                     i (tracked (before_log r k tau) tau) < np.shape1 a ∧
                     fits (np.nrows a) kv.2) rows.
Proof.
  intros Hr Hfit. eapply Forall_impl; [exact Hfit|]. intros kv Hkv.
  destruct (tracked_before_log r k tau) as [-> ->]. by apply row_fit_checked.
Qed.

(** A tick whose calls succeed, whose torques mix and whose row fits. *)
Lemma step_loggable sim r w k w' mask12 tau :
  reachable r → consults sim r w k w' → mixed k mask12 tau →
  Forall row_fit (tick_row k tau) →
  ∃ r', step sim (r, w) = ((r', w'), inr tau).
Proof.
  intros Hr Hk Hm Hfit. rewrite (step_mixed _ _ _ _ _ _ _ Hk Hm), finish_tick_row by done.
  destruct (write_row_inr (tick_row k tau) (tracked (before_log r k tau) tau) w')
    as (d' & -> & _).
  - rewrite tick_row_keys. apply channel_rows_NoDup.
  - by apply write_tick_row_ok.
  - cbn [fst snd torques set_data tracked before_log set_max_torques set_max_forces assigned].
    eauto.
Qed.

Lemma step_row_fit sim r w r' w' tau :
  reachable r → step sim (r, w) = ((r', w'), inr tau) →
  ∃ k mask12, consults sim r w k w' ∧ mixed k mask12 tau ∧
              Forall row_fit (tick_row k tau).
Proof.
  intros Hr (k & mask12 & Hk & Hm & _ & _ & Hw & _)%tick_effect.
  exists k, mask12. split; [done|]. split; [done|].
  rewrite tick_row_log_row in Hw.
  pose proof (tick_row_channels k tau) as Hch.
  rewrite Forall_forall in Hw, Hch |- *. intros kv Hin.
  destruct (Hch kv Hin) as [n Hn].
  eapply written_row_fit; [exact Hr|exact Hn|by apply Hw].
Qed.

(** A tick whose calls succeed and whose torques mix, but whose row does
    not fit: the values before the misfit are written, the clock stands. *)
Lemma step_misfit sim r w k w' mask12 tau rows bad rest :
  reachable r → consults sim r w k w' → mixed k mask12 tau →
  tick_row k tau = rows ++ bad :: rest →
  Forall row_fit rows → ¬ row_fit bad →
  ∃ d', step sim (r, w)
        = ((set_data d' (tracked (before_log r k tau) tau), w'), inl ValueError) ∧
        Forall (holds d' (i r)) rows.
Proof.
  intros Hr Hk Hm Hsplit Hfit Hbad.
  rewrite (step_mixed _ _ _ _ _ _ _ Hk Hm), finish_tick_row by done.
  assert (∃ n, (bad.1, n) ∈ channel_rows) as [n Hn].
  { pose proof (tick_row_channels k tau) as Hch. rewrite Hsplit in Hch.
    apply Forall_app in Hch as [_ Hch]. by apply Forall_cons in Hch as [? _]. }
  destruct (checked_channels r _ n Hr Hn) as (a & Ha & Hrows & Hroom).
  destruct bad as [key v]. cbn [fst snd] in *.
  destruct (write_row_inl rows key v rest (tracked (before_log r k tau) tau) w' a)
    as (d' & Hrun & Hw).
  - pose proof channel_rows_NoDup as Hnd. rewrite <- (tick_row_keys k tau), Hsplit in Hnd.
    rewrite fmap_app in Hnd |- *. rewrite fmap_cons in Hnd.
    apply NoDup_app in Hnd as (Hnd1 & Hdisj & Hnd2). apply NoDup_app. split_and!; [done| |].
    + intros x Hx Hx'. apply (Hdisj x Hx). apply list_elem_of_singleton in Hx' as ->. left.
    + apply NoDup_singleton.
  - by apply write_tick_row_ok.
  - done.
  - done.
  - rewrite Hrows. intros Hv. apply Hbad. exists n. eauto.
  - exists d'. rewrite Hsplit, Hrun. split; [done|].
    eapply Forall_impl; [exact Hw|]. intros kv. apply written_holds.
Qed.

End TickOutcome.

Section AbortingWith.

Context `{MathUtils} (C : Collaborators).

Global Instance held_preorder : PreOrder held.
Proof.
  split; [by intros r|].
  intros r1 r2 r3 (?&?&?&?&?&?) (?&?&?&?&?&?).
  unfold held. split_and!; [by etrans|congruence..].
Qed.

Context (R : relation (@WooferRobot _)) `{!PreOrder R}.

Lemma consulting_with_quiet {A} (m : M (@Store _ (spy C)) A) :
  local m → respects R m → consulting_with C R m.
Proof.
  intros Hl Hu s. exists []. rewrite app_nil_r. split_and!.
  - by rewrite Hl.
  - apply Hu.
  - by intros ev e ?%elem_of_nil.
Qed.

Lemma consulting_with_call {A} (ev : exn + A → Event C) f :
  (∀ o e, raised (ev o) = Some e → o = inl e) →
  consulting_with C R (@call _ (spy C) A (observe C ev f)).
Proof.
  intros Hev [r [w log]]. exists [ev (f w).2]. unfold call, observe. cbn [fst snd].
  split_and!; [done|reflexivity|]. intros ev' e ->%list_elem_of_singleton Hr.
  split; [|done]. by apply Hev.
Qed.

Lemma aborts_with_bind {A B} (m : M (@Store _ (spy C)) A)
    (k : A → M (@Store _ (spy C)) B) :
  consulting_with C R m → (∀ a, aborts_with C R (k a)) → aborts_with C R (m ≫= k).
Proof.
  intros Hm Hk s. destruct (Hm s) as (evs & Hlog & Hu & Hr).
  unfold mbind, M_bind. destruct (m s) as [s1 [e1|a]] eqn:Em; cbn [fst snd] in *.
  - exists evs. split; [done|]. intros ev e Hin Hraised.
    destruct (Hr ev e Hin Hraised) as [[= ->] Hlast]. done.
  - destruct (Hk a s1) as (evs' & Hlog' & Hr'). exists (evs ++ evs').
    split; [by rewrite Hlog', Hlog, app_assoc|].
    intros ev e [Hin|Hin]%elem_of_app Hraised.
    + by destruct (Hr ev e Hin Hraised) as [? _].
    + destruct (Hr' ev e Hin Hraised) as (? & ? & Hlast). split_and!; [done|by etrans|].
      destruct evs' as [|ev0 evs'] using rev_ind; [by apply elem_of_nil in Hin|].
      rewrite app_assoc, last_snoc. by rewrite last_snoc in Hlast.
Qed.

Lemma aborts_with_local {A} (m : M (@Store _ (spy C)) A) : local m → aborts_with C R m.
Proof.
  intros Hl s. exists []. rewrite app_nil_r. split; [by rewrite Hl|].
  by intros ev e ?%elem_of_nil.
Qed.

End AbortingWith.

Section AbortHeld.

Context `{MathUtils} (C : Collaborators).

Lemma step_aborts_held sim : aborts_with C held (@step _ (spy C) sim).
Proof.
  unfold step.
  cbn [spy state_estimator_update contact_estimator_update gait_planner_update
       swing_controller_update LegForwardKinematics qp_controller_Update].
  repeat (apply aborts_with_bind;
          [apply _
          |solve [ apply consulting_with_call; [apply _|intros [?|?] ? [=]; congruence]
                 | apply consulting_with_quiet;
                   [solve [repeat local_step]|solve [repeat respects_step]] ]
          |intros ?; split_tuple]).
  apply aborts_with_local. repeat first [apply log_data_local | local_step].
Qed.

End AbortHeld.

Section RunFacts.

Context `{MathUtils} `{Collaborators}.



Lemma checked_same r th :
  data r !! "torque_history" = Some th → i r < np.shape1 th → checked r = data r.
Proof.
  intros Hth Hi. unfold checked. rewrite Hth. rewrite bool_decide_eq_false_2; [done|lia].
Qed.

End RunFacts.

Section ReplayFacts.

Context `{MathUtils}.

Lemma replay_plans k r w : @plans _ Replay.collaborators k r w k (Some k).
Proof. by exists (Some k), (Some k), (Some k). Qed.

Lemma replay_consults k r w p p_d q wq j :
  tick_state k !! "p" = Some p → tick_state k !! "p_d" = Some p_d →
  tick_state k !! "q" = Some q → tick_state k !! "w" = Some wq →
  tick_state k !! "j" = Some j → qp_state k = (p, p_d, q, wq, j) →
  @consults _ Replay.collaborators k r w k (Some k).
Proof.
  intros. exists (Some k), (Some k), (Some k), (Some k), (Some k), p, p_d, q, wq, j.
  split_and!; done.
Qed.

End ReplayFacts.

Section RowsOverTime.

Context `{MathUtils} `{Collaborators}.

Lemma run_rows_kept n r r' : run n r r' → rows_kept r r'.
Proof.
  induction 1 as [r|n r sim w r1 w1 tau r2 Hs _ IH|n r sim w r1 w1 e r2 Hs _ IH].
  - reflexivity.
  - etrans; [|exact IH]. pose proof (step_rows_kept sim (r, w)) as Hp.
    by rewrite Hs in Hp.
  - etrans; [|exact IH]. pose proof (step_rows_kept sim (r, w)) as Hp.
    by rewrite Hs in Hp.
Qed.

(** A value held by a column below the tick index is held after any ticks. *)
Lemma holds_stay n r r' col kv :
  run n r r' → col < i r → holds (data r) col kv → holds (data r') col kv.
Proof.
  intros Hrun Hcol (a & c & Ha & Hc & Hcol').
  destruct (run_past_kept _ _ _ Hrun) as [_ Hp].
  destruct (Hp _ _ _ _ Hcol Ha Hcol') as (a' & Ha' & Hcol'').
  pose proof (run_rows_kept _ _ _ Hrun kv.1) as Hrows. rewrite Ha, Ha' in Hrows.
  cbn in Hrows. simplify_eq. exists a', c. by rewrite Hrows.
Qed.



End RowsOverTime.

(** * Further properties of the control loop *)

Section RecorderOverTime.

Context `{MathUtils} `{Collaborators}.

(** X1.  On every robot the driver can hold, the recorder has exactly
    the eleven channels of the constructor, each with the row count it
    was created with: ticks, successful or not, add no channel, drop
    none, and never change a row count. *)
Theorem recorder_layout r :
  reachable r → np.nrows <$> data r = list_to_map channel_rows.
Proof. apply reachable_rows. Qed.

(** X2.  On every robot the driver can hold, all channels have one
    capacity, which is 10 plus a whole number of 1000-column chunks, is
    not below the tick index and is at most 1000 above it. *)
Theorem capacity_slack r :
  reachable r →
  ∃ chunks, shared_capacity (data r) (10 + 1000 * chunks) ∧
            i r ≤ 10 + 1000 * chunks ≤ i r + 1000.
Proof. intros [_ Hs]%reachable_slack. exact Hs. Qed.

(** X3.  Ticks never rewrite the past: a column below the tick index
    keeps its content in every channel through any sequence of ticks,
    successful or failed, growth included. *)
Theorem logged_columns_stay n r r' key a col v :
  run n r r' →
  col < i r → data r !! key = Some a → np.column a col = Some v →
  ∃ a', data r' !! key = Some a' ∧ np.column a' col = Some v.
Proof. intros [_ Hp]%run_past_kept. apply Hp. Qed.

(** X5.  A successful tick that finds room for its row grows nothing:
    every channel keeps its shape, and every column but the one at the
    tick index keeps its content. *)
Theorem tick_without_growth sim r w r' w' tau th key a :
  step sim (r, w) = ((r', w'), inr tau) →
  data r !! "torque_history" = Some th → i r < np.shape1 th →
  data r !! key = Some a →
  ∃ a', data r' !! key = Some a' ∧
        np.nrows a' = np.nrows a ∧ np.shape1 a' = np.shape1 a ∧
        ∀ col, col ≠ i r → np.column a' col = np.column a col.
Proof.
  intros (k & mask12 & _ & _ & _ & _ & Hw & Ho)%tick_effect Hth Hi Ha.
  rewrite (checked_same _ _ Hth Hi) in Hw, Ho.
  set (row := log_row _ _ _ _ _ _) in *.
  destruct (decide (key ∈ row.*1)) as [Hin|Hout].
  - apply list_elem_of_fmap in Hin as ([key' v] & -> & Hin).
    rewrite Forall_forall in Hw. apply Hw in Hin as (a0 & c & Ha0 & Hlt & _ & Hd).
    cbn [fst snd] in *. simplify_eq. eexists. split; [done|].
    unfold np.shape1, np.column. cbn [np.nrows np.columns]. rewrite length_insert.
    split_and!; [done|done|]. intros col Hcol. by rewrite list_lookup_insert_ne.
  - rewrite (Ho key Hout). eauto.
Qed.

(** X14.  [log_data] called on a robot that has no torques yet (no tick
    has mixed any) raises [AttributeError] before it writes a column;
    by then it has checked the capacity, growing the buffers if the tick
    index has reached it, and has updated the force tracker. *)
Theorem log_data_before_any_tick r w th :
  data r !! "torque_history" = Some th → torques r = None →
  log_data (r, w)
  = ((set_max_forces (RunningMax_Update (max_forces r) (foot_forces r))
        (set_data (checked r) r), w), inl AttributeError).
Proof.
  intros Hth Htq. unfold log_data.
  erewrite bind_eq_inr by reflexivity. cbn [fst].
  erewrite bind_eq_inr by (by apply getitem_eq_inr).
  erewrite (bind_eq_inr _ _ _ (set_data (checked r) r, w) ()); last first.
  { unfold checked. rewrite Hth. case_bool_decide.
    - by rewrite grow_loop, grow_all by apply keys_is_Some.
    - by rewrite set_data_data. }
  do 3 fwd. rewrite Htq. reflexivity.
Qed.

End RecorderOverTime.

Section Failures.

Context `{MathUtils} `{Collaborators}.

(** X6.  When the stance force controller raises, the tick ends with its
    exception and is not undone: the robot keeps the new state estimate,
    contacts, gait plan, swing outputs and feet locations, while the
    foot forces, the reference wrench, the torques, the trackers, the
    clock and the recorder are those the tick started with. *)
Theorem stance_failure_state sim r w k w5 w' e :
  prepares sim r w k w5 →
  stance_solve r k w5 = (w', inl e) →
  step sim (r, w) = ((located r k, w'), inl e).
Proof.
  intros (w4 & p & p_d & q & wq & j & (w1 & w2 & w3 & E1 & E2 & E3 & E4) &
          Hp & Hpd & Hq & Hw & Hj & Hqs & E5) E6.
  unfold stance_solve in E6. rewrite Hqs in E6.
  unfold step. repeat fwd.
  erewrite bind_eq_inl by (apply call_eq_inl; eassumption).
  reflexivity.
Qed.

(** X7.  A state estimate that lacks one of the entries [p], [p_d], [q],
    [w], [j] makes the tick raise [KeyError] after the swing controller
    has run and before forward kinematics and the stance force
    controller are called: the world is the one the swing controller
    left, and the robot holds the plan and the swing outputs. *)
Theorem missing_state_entry_raises sim r w k w4 key :
  plans sim r w k w4 →
  key ∈ ["p"; "p_d"; "q"; "w"; "j"] → tick_state k !! key = None →
  step sim (r, w) = ((planned r k, w4), inl KeyError).
Proof.
  intros (w1 & w2 & w3 & E1 & E2 & E3 & E4) Hkey Hnone.
  assert ((set_foot_positions (tick_foot_positions k)
     (set_swing_trajectory (tick_swing_trajectory k)
        (set_swing_forces (Some (tick_swing_forces k))
           (set_swing_torques (tick_swing_torques k)
              (set_step_phase (tick_step_phase k)
                 (set_phase (tick_phase k)
                    (set_active_feet (Some (tick_active_feet k))
                       (set_p_step_locations (tick_p_step_locations k)
                          (set_step_locations (tick_step_locations k)
                             (set_contacts (Some (tick_contacts k))
                                (set_state (Some (tick_state k)) r)))))))))))
          = planned r k) as Hr by reflexivity.
  unfold step. repeat fwd.
  destruct (tick_state k !! "p") as [p|] eqn:Hp; [fwd|];
    [|erewrite bind_eq_inl by (by apply getitem_eq_inl); by rewrite Hr].
  destruct (tick_state k !! "p_d") as [p_d|] eqn:Hpd; [fwd|];
    [|erewrite bind_eq_inl by (by apply getitem_eq_inl); by rewrite Hr].
  destruct (tick_state k !! "q") as [q|] eqn:Hq; [fwd|];
    [|erewrite bind_eq_inl by (by apply getitem_eq_inl); by rewrite Hr].
  destruct (tick_state k !! "w") as [wq|] eqn:Hw; [fwd|];
    [|erewrite bind_eq_inl by (by apply getitem_eq_inl); by rewrite Hr].
  destruct (tick_state k !! "j") as [j|] eqn:Hj; [fwd|];
    [|erewrite bind_eq_inl by (by apply getitem_eq_inl); by rewrite Hr].
  repeat (apply elem_of_cons in Hkey as [->|Hkey]; [congruence|]).
  by apply elem_of_nil in Hkey.
Qed.

(** X8.  A gait planner mask of fewer than four entries makes the tick
    raise [IndexError] at the mask expansion, after the stance solve:
    the robot already holds the new foot forces and reference wrench,
    while torques, trackers, clock and recorder are untouched. *)
Theorem short_mask_raises sim r w k w' :
  consults sim r w k w' → length (tick_active_feet k) < 4 →
  step sim (r, w) = ((solved r k, w'), inl IndexError).
Proof. apply step_short_mask. Qed.

(** X9.  With a mask of at least four entries, stance or swing torques
    that have neither twelve entries nor one make the tick raise
    [ValueError] at the mix, after the stance solve: the robot already
    holds the new foot forces and reference wrench, while torques,
    trackers, clock and recorder are untouched. *)
Theorem torque_shape_mismatch_raises sim r w k w' :
  consults sim r w k w' → 4 ≤ length (tick_active_feet k) →
  ¬ (fits 12 (qp_torques k) ∧ fits 12 (tick_swing_torques k)) →
  step sim (r, w) = ((solved r k, w'), inl ValueError).
Proof. apply step_shape_mismatch. Qed.


(** X11.  On a robot the driver can hold, a tick returns torques
    exactly when the six collaborator calls succeed, the torques mix,
    and every value of the row fits its channel (as many entries as the
    channel has rows, or one); it then returns the mixed torques and
    leaves the world the stance solve left. *)
Theorem tick_succeeds_iff sim r w w' tau :
  reachable r →
  (∃ r', step sim (r, w) = ((r', w'), inr tau)) ↔
  (∃ k mask12, consults sim r w k w' ∧ mixed k mask12 tau ∧
               Forall row_fit (tick_row k tau)).
Proof.
  intros Hr. split.
  - intros [r' Hs]. by eapply step_row_fit.
  - intros (k & mask12 & Hk & Hm & Hfit). by eapply step_loggable.
Qed.

(** X12.  A tick whose calls succeed and whose torques mix, but whose
    row has a value that does not fit its channel, raises [ValueError]
    with the row written in part: the channels before the misfit, in the
    order of [log_data], already hold the values of the tick at the tick
    index; the trackers have been updated twice; the clock is not
    advanced, so the next tick writes the same column again. *)
Theorem misfit_row_written_in_part sim r w k w' mask12 tau rows bad rest :
  reachable r → consults sim r w k w' → mixed k mask12 tau →
  tick_row k tau = rows ++ bad :: rest →
  Forall row_fit rows → ¬ row_fit bad →
  ∃ r', step sim (r, w) = ((r', w'), inl ValueError) ∧
        t r' = t r ∧ i r' = i r ∧
        Forall (holds (data r') (i r)) rows ∧
        torques r' = Some tau ∧ foot_forces r' = tick_foot_forces k ∧
        max_torques r' = RunningMax_Update (RunningMax_Update (max_torques r) tau) tau ∧
        max_forces r'
          = RunningMax_Update (RunningMax_Update (max_forces r) (tick_foot_forces k))
                              (tick_foot_forces k).
Proof.
  intros Hr Hk Hm Hsplit Hfit Hbad.
  destruct (step_misfit _ _ _ _ _ _ _ _ _ _ Hr Hk Hm Hsplit Hfit Hbad) as (d' & -> & Hw).
  eexists. split; [done|]. split_and!; done.
Qed.


End Failures.

Section FailedCalls.

Context `{MathUtils} (C : Collaborators).

(** X13.  A tick in which a collaborator call raises leaves the foot
    forces for the next stance solve, the reference wrench, the torques
    and both trackers as they were: the next tick is warm-started from
    the last successful stance solve. *)
Theorem failed_call_keeps_warm_start sim r w log r' w' log' res ev e :
  @step _ (spy C) sim (r, (w, log)) = ((r', (w', log')), res) →
  ev ∈ added C log log' →
  raised ev = Some e →
  foot_forces r' = foot_forces r ∧ ref_wrench r' = ref_wrench r ∧
  torques r' = torques r ∧ max_forces r' = max_forces r ∧
  max_torques r' = max_torques r.
Proof.
  intros Hs Hin Hraised.
  destruct (step_aborts_held C sim (r, (w, log))) as (evs & Hlog & Hr).
  rewrite Hs in Hlog, Hr. cbn [fst snd] in Hlog, Hr. subst log'.
  rewrite added_app in Hin.
  by destruct (Hr ev e Hin Hraised) as (_ & (_ & ? & ? & ? & ? & ?) & _).
Qed.

End FailedCalls.

Section Reports.

Context `{MathUtils} `{Collaborators}.

Variable CurrentMax : RunningMaxT → list Q.
Variable quat2euler : list Q → World → World * (exn + list Q).
Variable savez : string → gmap string np.ndarray2 → World → World * (exn + ()).

(** X15.  [print_data] cannot complete on a robot that has no torques
    yet: it raises.  On a robot without a state estimate, such as a
    fresh one, it prints the time and raises [TypeError]. *)
Theorem print_data_needs_a_tick r w out :
  torques r = None →
  (∃ e, (print_data CurrentMax quat2euler r (w, out)).2 = inl e) ∧
  (state r = None →
   print_data CurrentMax quat2euler r (w, out)
   = ((w, out ++ [Formatted "Time: %s" (Number (t r))]), inl TypeError)).
Proof.
  intros Htq. split.
  - unfold print_data. cbv [mbind M_bind print lift consult or_raise]. cbn [fst snd].
    rewrite Htq.
    destruct (state r) as [st|]; [|eauto].
    destruct (st !! "p"); [|eauto]. destruct (st !! "q") as [q|]; [|eauto].
    destruct (quat2euler q w) as [w1 [e|eu]]; cbn [fst snd]; [eauto|].
    destruct (ref_wrench r); [|eauto]. destruct (feet_locations r); eauto.
  - intros Hst. unfold print_data. cbv [mbind M_bind print lift consult or_raise].
    cbn [fst snd]. by rewrite Hst.
Qed.

(** X16.  After a successful tick [print_data] prints, provided
    [quat2euler] returns, eleven lines: the time after the tick, the
    position and the Euler angles of the state estimate of the tick, the
    current maxima of both trackers, the reference wrench, the feet
    locations, the contacts and the foot forces of the tick, the torques
    the tick returned, and a newline. *)
Theorem print_data_after_tick sim r w r' w' tau k p q w'' eu out :
  step sim (r, w) = ((r', w'), inr tau) →
  consults sim r w k w' →
  tick_state k !! "p" = Some p → tick_state k !! "q" = Some q →
  quat2euler q w' = (w'', inr eu) →
  print_data CurrentMax quat2euler r' (w', out)
  = ((w'', out ++ report CurrentMax r' p eu (tick_ref_wrench k) (tick_feet_locations k) tau),
     inr ()) ∧
  t r' = (t r + dt r)%Q ∧ contacts r' = Some (tick_contacts k) ∧
  foot_forces r' = tick_foot_forces k.
Proof.
  intros (k' & mask12 & Hk' & _ & _ & Hr & _)%tick_effect Hk Hp Hq He.
  destruct (consults_inj _ _ _ _ _ _ _ Hk Hk') as [<- _].
  assert (state r' = Some (tick_state k)) as Hst by (by rewrite Hr).
  assert (ref_wrench r' = Some (tick_ref_wrench k)) as Hrw by (by rewrite Hr).
  assert (feet_locations r' = Some (tick_feet_locations k)) as Hfl by (by rewrite Hr).
  assert (torques r' = Some tau) as Htq by (by rewrite Hr).
  split_and!; [|by rewrite Hr..].
  unfold print_data, report. cbv [mbind M_bind print lift consult or_raise]. cbn [fst snd].
  rewrite Hst, Hp, Hq, He, Hrw, Hfl, Htq. cbn [fst snd].
  by rewrite <- !app_assoc.
Qed.

(** X18.  After a successful tick every one of the eleven channels
    holds, at the tick index the tick started with, the value of the
    tick for it: the returned torques, the foot forces, the reference
    wrench, the contacts, the mask, the swing torques, forces and
    trajectory, the foot positions, the phase and the step phase; a
    single value is repeated over the rows of its channel. *)
Theorem tick_row_logged sim r w r' w' tau k :
  step sim (r, w) = ((r', w'), inr tau) →
  consults sim r w k w' →
  Forall (holds (data r') (i r)) (tick_row k tau).
Proof.
  intros (k' & mask12 & Hk' & _ & _ & _ & Hw & _)%tick_effect Hk.
  destruct (consults_inj _ _ _ _ _ _ _ Hk Hk') as [<- _].
  rewrite tick_row_log_row in Hw.
  eapply Forall_impl; [exact Hw|]. intros kv. apply written_holds.
Qed.

(** X4.  The log is a history of the ticks: the row a successful tick
    wrote at its tick index, the returned torques among it, is still in
    the recorder that [save_logs] hands to [np.savez] after any further
    ticks, successful or failed; [save_logs] passes the whole recorder
    under the name [woofer_numpy_log], leaves the robot as it is, and
    ends as [np.savez] ends. *)
Theorem saved_log_keeps_history sim r w r1 w1 tau k n r2 w2 :
  step sim (r, w) = ((r1, w1), inr tau) →
  consults sim r w k w1 →
  run n r1 r2 →
  save_logs savez (r2, w2)
  = ((r2, (savez "woofer_numpy_log" (data r2) w2).1),
     (savez "woofer_numpy_log" (data r2) w2).2) ∧
  Forall (holds (data r2) (i r)) (tick_row k tau) ∧
  ∃ th, data r2 !! "torque_history" = Some th ∧ np.column th (i r) = Some tau.
Proof.
  intros Hs Hk Hrun. split; [done|].
  pose proof Hs as (k' & mask12 & Hk' & Hm & _ & Hr & Hw & _)%tick_effect.
  destruct (consults_inj _ _ _ _ _ _ _ Hk Hk') as [<- _].
  assert (i r < i r1) as Hi by (rewrite Hr; cbn; lia).
  rewrite tick_row_log_row in Hw.
  assert (Forall (holds (data r2) (i r)) (tick_row k tau)) as Hall.
  { eapply Forall_impl; [exact Hw|]. intros kv Hkv.
    eapply holds_stay; [done|done|]. eapply written_holds, Hkv. }
  split; [done|].
  apply Forall_cons in Hall as [(th & c & Hth & Hc & Hcol) _]. cbn [fst snd] in *.
  apply mixed_length in Hm. apply broadcast_to_12 in Hc as ->; [|done]. eauto.
Qed.


End Reports.

(** ** The further properties on the bench *)

Lemma tick1_reachable : @reachable running_max Bench.collaborators Shown.tick1.1.1.
Proof.
  apply (reachable_step Trial.robot0 Trial.trot 0 _ 1 (inr Shown.tau0));
    [apply reachable_init|]. vm_compute. reflexivity.
Qed.

Lemma tick2_run : @run running_max Bench.collaborators 1 Shown.tick1.1.1 Shown.tick2.1.1.
Proof.
  apply (run_tick 0 Shown.tick1.1.1 Trial.trot 1 Shown.tick2.1.1 2 Shown.tau0);
    [|apply run_done]. vm_compute. reflexivity.
Qed.

Lemma recorder_layout_witness :
  np.nrows <$> data Shown.tick1.1.1 = list_to_map channel_rows.
Proof. apply (@recorder_layout running_max Bench.collaborators). apply tick1_reachable. Defined.

Lemma capacity_slack_witness :
  ∃ chunks, shared_capacity (data Shown.tick1.1.1) (10 + 1000 * chunks) ∧
            i Shown.tick1.1.1 ≤ 10 + 1000 * chunks ≤ i Shown.tick1.1.1 + 1000.
Proof. apply (@capacity_slack running_max Bench.collaborators). apply tick1_reachable. Defined.

Lemma logged_columns_stay_witness :
  ∃ a', data Shown.tick2.1.1 !! "torque_history" = Some a' ∧
        np.column a' 0 = Some Shown.tau0.
Proof.
  assert (∃ a, data Shown.tick1.1.1 !! "torque_history" = Some a ∧
               np.column a 0 = Some Shown.tau0) as (a & Ha & Hc).
  { eexists. split; vm_compute; reflexivity. }
  apply (@logged_columns_stay running_max Bench.collaborators 1 Shown.tick1.1.1
           Shown.tick2.1.1 "torque_history" a 0 Shown.tau0);
    [apply tick2_run|vm_compute; lia|exact Ha|exact Hc].
Defined.

Lemma saved_log_keeps_history_witness :
  @save_logs running_max Bench.collaborators Shown.written_file (Shown.tick2.1.1, 2)
  = ((Shown.tick2.1.1,
      (Shown.written_file "woofer_numpy_log" (data Shown.tick2.1.1) 2).1),
     (Shown.written_file "woofer_numpy_log" (data Shown.tick2.1.1) 2).2) ∧
  Forall (holds (data Shown.tick2.1.1) (i Trial.robot0)) (tick_row Trial.tick0 Shown.tau0) ∧
  ∃ th, data Shown.tick2.1.1 !! "torque_history" = Some th ∧
        np.column th (i Trial.robot0) = Some Shown.tau0.
Proof.
  apply (@saved_log_keeps_history running_max Bench.collaborators
           Shown.written_file Trial.trot Trial.robot0 0 Shown.tick1.1.1 1 Shown.tau0
           Trial.tick0 1 Shown.tick2.1.1 2).
  - vm_compute. reflexivity.
  - unfold consults. do 10 eexists. vm_compute. repeat split.
  - apply tick2_run.
Defined.

Lemma tick_row_logged_witness :
  Forall (holds (data Shown.tick1.1.1) (i Trial.robot0)) (tick_row Trial.tick0 Shown.tau0).
Proof.
  apply (@tick_row_logged running_max Bench.collaborators Trial.trot Trial.robot0 0
           Shown.tick1.1.1 1 Shown.tau0 Trial.tick0).
  - vm_compute. reflexivity.
  - unfold consults. do 10 eexists. vm_compute. repeat split.
Defined.


Lemma tick_without_growth_witness :
  ∃ a', data Shown.tick1.1.1 !! "phase_history" = Some a' ∧
        np.nrows a' = np.nrows (np.zeros2 1 10) ∧
        np.shape1 a' = np.shape1 (np.zeros2 1 10) ∧
        ∀ col, col ≠ i Trial.robot0 → np.column a' col = np.column (np.zeros2 1 10) col.
Proof.
  apply (@tick_without_growth running_max Bench.collaborators Trial.trot Trial.robot0 0
           Shown.tick1.1.1 1 Shown.tau0 (np.zeros2 12 10) "phase_history").
  - vm_compute. reflexivity.
  - vm_compute. reflexivity.
  - vm_compute. lia.
  - vm_compute. reflexivity.
Defined.

Lemma log_data_before_any_tick_witness :
  @log_data running_max Bench.collaborators (Trial.robot0, 0)
  = ((set_max_forces (RunningMax_Update (max_forces Trial.robot0) (foot_forces Trial.robot0))
        (set_data (checked Trial.robot0) Trial.robot0), 0), inl AttributeError).
Proof.
  apply (@log_data_before_any_tick running_max Bench.collaborators Trial.robot0 0
           (np.zeros2 12 10)).
  - vm_compute. reflexivity.
  - reflexivity.
Defined.

Lemma stance_failure_state_witness :
  @step running_max Bench.collaborators Trial.fallen (Trial.robot0, 0)
  = ((located Trial.robot0 Replay.fallen0, 0), inl InfeasibleSolveError).
Proof.
  apply (@stance_failure_state running_max Bench.collaborators Trial.fallen Trial.robot0 0
           Replay.fallen0 0 0 InfeasibleSolveError).
  - unfold prepares, plans. eexists _, _, _, _, _, _.
    split; [eexists _, _, _; vm_compute; repeat split|vm_compute; repeat split].
  - vm_compute. reflexivity.
Defined.

Lemma missing_state_entry_raises_witness :
  @step running_max Replay.collaborators Replay.no_velocity (Replay.robot0, None)
  = ((planned Replay.robot0 Replay.no_velocity, Some Replay.no_velocity), inl KeyError).
Proof.
  apply (@missing_state_entry_raises running_max Replay.collaborators Replay.no_velocity
           Replay.robot0 None Replay.no_velocity (Some Replay.no_velocity) "p_d").
  - apply replay_plans.
  - apply (bool_decide_unpack _). vm_compute. exact I.
  - vm_compute. reflexivity.
Defined.

Lemma short_mask_raises_witness :
  @step running_max Replay.collaborators Replay.three_legs (Replay.robot0, None)
  = ((solved Replay.robot0 Replay.three_legs, Some Replay.three_legs), inl IndexError).
Proof.
  apply (@short_mask_raises running_max Replay.collaborators).
  - apply (replay_consults _ _ _ [0; 0; 0.32]%Q (np.zeros 3) [1; 0; 0; 0]%Q (np.zeros 3)
             (np.zeros 12)); reflexivity.
  - vm_compute. lia.
Defined.

Lemma torque_shape_mismatch_raises_witness :
  @step running_max Replay.collaborators Replay.two_torques (Replay.robot0, None)
  = ((solved Replay.robot0 Replay.two_torques, Some Replay.two_torques), inl ValueError).
Proof.
  apply (@torque_shape_mismatch_raises running_max Replay.collaborators).
  - apply (replay_consults _ _ _ [0; 0; 0.32]%Q (np.zeros 3) [1; 0; 0; 0]%Q (np.zeros 3)
             (np.zeros 12)); reflexivity.
  - vm_compute. lia.
  - intros [[Hl|Hl] _]; vm_compute in Hl; lia.
Defined.

Lemma tick_succeeds_iff_witness :
  (∃ r', @step running_max Replay.collaborators Trial.tick0 (Replay.robot0, None)
         = ((r', Some Trial.tick0), inr Shown.tau0)) ↔
  (∃ k mask12, @consults running_max Replay.collaborators Trial.tick0 Replay.robot0 None k
                 (Some Trial.tick0) ∧
               mixed k mask12 Shown.tau0 ∧ Forall row_fit (tick_row k Shown.tau0)).
Proof.
  apply (@tick_succeeds_iff running_max Replay.collaborators Trial.tick0 Replay.robot0 None
           (Some Trial.tick0) Shown.tau0).
  apply reachable_init.
Defined.

Lemma misfit_row_written_in_part_witness :
  ∃ r', @step running_max Replay.collaborators Replay.five_contacts (Replay.robot0, None)
        = ((r', Some Replay.five_contacts), inl ValueError) ∧
        t r' = t Replay.robot0 ∧ i r' = i Replay.robot0 ∧
        Forall (holds (data r') (i Replay.robot0))
          [("torque_history", Shown.tau0);
           ("force_history", tick_foot_forces Replay.five_contacts);
           ("ref_wrench_history", tick_ref_wrench Replay.five_contacts)] ∧
        torques r' = Some Shown.tau0 ∧
        foot_forces r' = tick_foot_forces Replay.five_contacts ∧
        max_torques r'
          = RunningMax_Update (RunningMax_Update (max_torques Replay.robot0) Shown.tau0)
                              Shown.tau0 ∧
        max_forces r'
          = RunningMax_Update
              (RunningMax_Update (max_forces Replay.robot0)
                 (tick_foot_forces Replay.five_contacts))
              (tick_foot_forces Replay.five_contacts).
Proof.
  apply (@misfit_row_written_in_part running_max Replay.collaborators Replay.five_contacts
           Replay.robot0 None Replay.five_contacts (Some Replay.five_contacts)
           [1; 1; 1; 0; 0; 0; 1; 1; 1; 0; 0; 0]%Q Shown.tau0
           [("torque_history", Shown.tau0);
            ("force_history", tick_foot_forces Replay.five_contacts);
            ("ref_wrench_history", tick_ref_wrench Replay.five_contacts)]
           ("contacts_history", tick_contacts Replay.five_contacts)
           [("active_feet_history", tick_active_feet Replay.five_contacts);
            ("swing_torque_history", tick_swing_torques Replay.five_contacts);
            ("swing_force_history", tick_swing_forces Replay.five_contacts);
            ("swing_trajectory", tick_swing_trajectory Replay.five_contacts);
            ("foot_positions", tick_foot_positions Replay.five_contacts);
            ("phase_history", [tick_phase Replay.five_contacts]);
            ("step_phase_history", [tick_step_phase Replay.five_contacts])]).
  - apply reachable_init.
  - apply (replay_consults _ _ _ [0; 0; 0.32]%Q (np.zeros 3) [1; 0; 0; 0]%Q (np.zeros 3)
             (np.zeros 12)); reflexivity.
  - unfold mixed. do 2 eexists. vm_compute. repeat split.
  - reflexivity.
  - repeat (apply Forall_cons; split;
            [eexists; split;
             [cbn [fst]; by repeat first [apply list_elem_of_here | apply list_elem_of_further]
             |vm_compute; lia]|]).
    apply Forall_nil_2.
  - intros (n & Hin & Hfit). cbn [fst snd] in Hin, Hfit. unfold channel_rows in Hin.
    repeat (apply elem_of_cons in Hin as [Hin|Hin];
            [simplify_eq; destruct Hfit as [Hl|Hl]; vm_compute in Hl; lia|]).
    by apply elem_of_nil in Hin.
Defined.

Lemma failed_call_keeps_warm_start_witness :
  foot_forces Trial.crashed.1.1 = foot_forces Trial.robot0 ∧
  ref_wrench Trial.crashed.1.1 = ref_wrench Trial.robot0 ∧
  torques Trial.crashed.1.1 = torques Trial.robot0 ∧
  max_forces Trial.crashed.1.1 = max_forces Trial.robot0 ∧
  max_torques Trial.crashed.1.1 = max_torques Trial.robot0.
Proof.
  apply (@failed_call_keeps_warm_start running_max Bench.collaborators Trial.fallen
           Trial.robot0 0 [] Trial.crashed.1.1 Trial.crashed.1.2.1 Trial.crashed.1.2.2
           Trial.crashed.2 Trial.infeasible InfeasibleSolveError).
  - vm_compute. reflexivity.
  - apply (list_elem_of_lookup_2 _ 5). vm_compute. reflexivity.
  - reflexivity.
Defined.

Lemma print_data_needs_a_tick_witness :
  (∃ e, (@print_data running_max Bench.collaborators Shown.current_max Shown.level
           Trial.robot0 (0, [])).2 = inl e) ∧
  (state Trial.robot0 = None →
   @print_data running_max Bench.collaborators Shown.current_max Shown.level
     Trial.robot0 (0, [])
   = ((0, [] ++ [Formatted "Time: %s" (Number (t Trial.robot0))]), inl TypeError)).
Proof.
  apply (@print_data_needs_a_tick running_max Bench.collaborators Shown.current_max
           Shown.level Trial.robot0 0 []).
  reflexivity.
Defined.

Lemma print_data_after_tick_witness :
  @print_data running_max Bench.collaborators Shown.current_max Shown.level
    Shown.tick1.1.1 (1, [])
  = ((1, [] ++ report Shown.current_max Shown.tick1.1.1 [0; 0; 0.32]%Q (np.zeros 3)
                 (tick_ref_wrench Trial.tick0) (tick_feet_locations Trial.tick0)
                 Shown.tau0),
     inr ()) ∧
  t Shown.tick1.1.1 = (t Trial.robot0 + dt Trial.robot0)%Q ∧
  contacts Shown.tick1.1.1 = Some (tick_contacts Trial.tick0) ∧
  foot_forces Shown.tick1.1.1 = tick_foot_forces Trial.tick0.
Proof.
  apply (@print_data_after_tick running_max Bench.collaborators Shown.current_max
           Shown.level Trial.trot Trial.robot0 0 Shown.tick1.1.1 1 Shown.tau0 Trial.tick0
           [0; 0; 0.32]%Q [1; 0; 0; 0]%Q 1 (np.zeros 3) []).
  - vm_compute. reflexivity.
  - unfold consults. do 10 eexists. vm_compute. repeat split.
  - vm_compute. reflexivity.
  - vm_compute. reflexivity.
  - reflexivity.
Defined.

